(** * Webhook ingestion and query service: model and properties

    A shallow embedding of [storage.py] (the message repository) and of the
    request handlers of [main.py] (signature check, payload validation,
    ingestion, listing), followed by the properties of the service.

    Conventions.
    - A Python [str] is a [string]: a sequence of code points, each below 256
      (one [ascii] per code point).  A [bytes] value is a [string] as well, one
      [ascii] per byte.  A header value reaches the handler decoded as
      Latin-1, so the two readings agree on it.
    - The clock and the library calls whose result the handlers only consume
      ([json.loads], [datetime.fromisoformat]) are inputs of the model.
    - The SQL statements are modelled by their meaning on the table, a list of
      rows in insertion order, with text compared as SQLite's BINARY
      collation does.  A value is within the engine's limit on the length of
      a string (SQLITE_MAX_LENGTH, 10^9 bytes).  Of the exceptions of the
      driver and the engine the model has the two a listing can then meet: an
      integer outside 64 bits, and a LIKE pattern that is too long.
    - Of the effects of a request the model keeps the table, the calls made
      on the repository and the webhook counter; log records and the HTTP
      metrics of the middleware are left out. *)

From Stdlib Require Import ZArith List String Ascii Bool Arith Lia.
From Stdlib Require Import Sorting.Sorted Sorting.Permutation.
Import ListNotations.

Local Open Scope string_scope.
Local Open Scope Z_scope.

(* ------------------------------------------------------------------ *)
(** ** Python strings *)

Module Text.

Definition code (c : ascii) : Z := Z.of_N (N_of_ascii c).

Definition chr (z : Z) : ascii := ascii_of_N (Z.to_N z).

Definition chars (s : string) : list ascii := list_ascii_of_string s.

Definition of_chars (l : list ascii) : string := string_of_list_ascii l.

(** [bool(s)] for an optional string argument: [None] and [""] are falsy. *)
Definition truthy (o : option string) : bool :=
  match o with
  | None => false
  | Some s => negb (s =? "")%string
  end.

(** [str.isascii] on one code point. *)
Definition ascii_char (c : ascii) : bool := code c <? 128.

Definition isascii (s : string) : bool := forallb ascii_char (chars s).

(** ASCII-only case folding: what SQLite's [LOWER] does to a code point. *)
Definition lower_char (c : ascii) : ascii :=
  if (65 <=? code c) && (code c <=? 90) then chr (code c + 32) else c.

Definition lower (s : string) : string := of_chars (map lower_char (chars s)).

Definition upper_char (c : ascii) : ascii :=
  if (97 <=? code c) && (code c <=? 122) then chr (code c - 32) else c.

Definition upper (s : string) : string := of_chars (map upper_char (chars s)).

(** [str.isdigit] on one code point below 256: the ten decimal digits and
    the superscripts U+00B2, U+00B3 and U+00B9. *)
Definition isdigit_char (c : ascii) : bool :=
  ((48 <=? code c) && (code c <=? 57))
  || (code c =? 178) || (code c =? 179) || (code c =? 185).

(** [str.isdigit]: at least one character, and all of them digits. *)
Definition isdigit (s : string) : bool :=
  match chars s with
  | [] => false
  | l => forallb isdigit_char l
  end.

(** [s.startswith(c)] and [s[1:]] for a one-character prefix. *)
Definition startswith_char (c : ascii) (s : string) : bool :=
  match s with
  | String d _ => (d =? c)%char
  | EmptyString => false
  end.

Definition tail (s : string) : string :=
  match s with
  | String _ r => r
  | EmptyString => EmptyString
  end.

Fixpoint endswith_char (c : ascii) (s : string) : bool :=
  match s with
  | EmptyString => false
  | String d EmptyString => (d =? c)%char
  | String _ r => endswith_char c r
  end.

(** [s.replace(c, r)] for a one-character needle: every occurrence. *)
Fixpoint replace_char (c : ascii) (r : string) (s : string) : string :=
  match s with
  | EmptyString => EmptyString
  | String d t =>
      if (d =? c)%char then r ++ replace_char c r t
      else String d (replace_char c r t)
  end.

(** [s.encode()]: UTF-8, for code points below 256. *)
Definition utf8_char (c : ascii) : list Z :=
  if code c <? 128 then [code c]
  else [192 + code c / 64; 128 + code c mod 64].

Definition encode (s : string) : list Z := flat_map utf8_char (chars s).

Definition bytes (s : string) : list Z := map code (chars s).

End Text.

(* ------------------------------------------------------------------ *)
(** ** SHA-256 and HMAC ([hashlib.sha256], [hmac.new(...).hexdigest()]) *)

Module Sha256.

Definition w32 (x : Z) : Z := x mod 4294967296.

Definition add32 (x y : Z) : Z := w32 (x + y).

Definition rotr (n x : Z) : Z :=
  w32 (Z.lor (Z.shiftr x n) (Z.shiftl x (32 - n))).

Definition ch (x y z : Z) : Z :=
  Z.lxor (Z.land x y) (Z.land (Z.lxor x 0xffffffff) z).

Definition maj (x y z : Z) : Z :=
  Z.lxor (Z.lxor (Z.land x y) (Z.land x z)) (Z.land y z).

Definition bsig0 (x : Z) : Z :=
  Z.lxor (Z.lxor (rotr 2 x) (rotr 13 x)) (rotr 22 x).

Definition bsig1 (x : Z) : Z :=
  Z.lxor (Z.lxor (rotr 6 x) (rotr 11 x)) (rotr 25 x).

Definition ssig0 (x : Z) : Z :=
  Z.lxor (Z.lxor (rotr 7 x) (rotr 18 x)) (Z.shiftr x 3).

Definition ssig1 (x : Z) : Z :=
  Z.lxor (Z.lxor (rotr 17 x) (rotr 19 x)) (Z.shiftr x 10).

(** The constants of the standard: the first 32 bits of the fractional parts
    of the cube roots of the first 64 primes, and of the square roots of the
    first 8 primes. *)
Definition is_prime (n : nat) : bool :=
  (2 <=? n)%nat
  && forallb (fun d => negb (n mod d =? 0)%nat) (seq 2 (n - 2)).

Definition primes (count : nat) : list Z :=
  map Z.of_nat (firstn count (filter is_prime (seq 2 310))).

Fixpoint cube_root_bits (bits : nat) (n r : Z) : Z :=
  match bits with
  | O => r
  | S b =>
      let c := r + 2 ^ Z.of_nat b in
      cube_root_bits b n (if c * c * c <=? n then c else r)
  end.

Definition cube_root (n : Z) : Z := cube_root_bits 40 n 0.

Definition K : list Z :=
  Eval vm_compute in map (fun p => w32 (cube_root (p * 2 ^ 96))) (primes 64).

Definition H0 : list Z :=
  Eval vm_compute in map (fun p => w32 (Z.sqrt (p * 2 ^ 64))) (primes 8).

(** Padding: a 1 bit, zeros up to 56 mod 64, then the bit length on eight
    bytes, most significant first. *)
Definition be_bytes (n : nat) (x : Z) : list Z :=
  map (fun i => (Z.shiftr x (8 * Z.of_nat i)) mod 256) (rev (seq 0 n)).

Definition pad (msg : list Z) : list Z :=
  let len := Z.of_nat (List.length msg) in
  let zeros := Z.to_nat ((55 - len) mod 64) in
  msg ++ [128] ++ repeat 0 zeros ++ be_bytes 8 (8 * len).

(** Big-endian 32-bit words of a byte sequence. *)
Fixpoint words (fuel : nat) (bs : list Z) : list Z :=
  match fuel, bs with
  | S f, b0 :: b1 :: b2 :: b3 :: r =>
      (((b0 * 256 + b1) * 256 + b2) * 256 + b3) :: words f r
  | _, _ => []
  end.

(** The message schedule, most recent word first. *)
Fixpoint schedule (n : nat) (w : list Z) : list Z :=
  match n with
  | O => w
  | S n' =>
      let x := add32 (add32 (ssig1 (nth 1 w 0)) (nth 6 w 0))
                     (add32 (ssig0 (nth 14 w 0)) (nth 15 w 0)) in
      schedule n' (x :: w)
  end.

Definition round (st : list Z) (kw : Z * Z) : list Z :=
  match st with
  | [a; b; c; d; e; f; g; h] =>
      let t1 := add32 (add32 (add32 h (bsig1 e))
                             (add32 (ch e f g) (fst kw))) (snd kw) in
      let t2 := add32 (bsig0 a) (maj a b c) in
      [add32 t1 t2; a; b; c; add32 d t1; e; f; g]
  | _ => st
  end.

Definition compress (h : list Z) (block : list Z) : list Z :=
  let w := rev (schedule 48 (rev (words 16 block))) in
  let st := fold_left round (combine K w) h in
  map (fun p => add32 (fst p) (snd p)) (combine h st).

Fixpoint blocks (fuel : nat) (h : list Z) (bs : list Z) : list Z :=
  match fuel with
  | O => h
  | S f =>
      match bs with
      | [] => h
      | _ => blocks f (compress h (firstn 64 bs)) (skipn 64 bs)
      end
  end.

Definition digest_words (msg : list Z) : list Z :=
  let p := pad msg in
  blocks (S (List.length p / 64)) H0 p.

Definition digest (msg : list Z) : list Z :=
  flat_map (be_bytes 4) (digest_words msg).

End Sha256.

Module Hmac.

Definition block_size : nat := 64.

Definition hex_digits : list ascii :=
  ["0"; "1"; "2"; "3"; "4"; "5"; "6"; "7";
   "8"; "9"; "a"; "b"; "c"; "d"; "e"; "f"]%char.

Definition hex_digit (n : Z) : ascii := nth (Z.to_nat n) hex_digits "0"%char.

Definition hex_byte (b : Z) : list ascii :=
  [hex_digit (b / 16 mod 16); hex_digit (b mod 16)].

Definition hexlify (bs : list Z) : string :=
  Text.of_chars (flat_map hex_byte bs).

Definition key_block (key : list Z) : list Z :=
  let k := if (block_size <? List.length key)%nat
           then Sha256.digest key else key in
  k ++ repeat 0 (block_size - List.length k).

Definition hmac_sha256 (key msg : list Z) : list Z :=
  let k := key_block key in
  let inner := Sha256.digest (map (Z.lxor 0x36) k ++ msg) in
  Sha256.digest (map (Z.lxor 0x5c) k ++ inner).

(** [hmac.new(key, msg, hashlib.sha256).hexdigest()] *)
Definition hexdigest (key msg : list Z) : string :=
  hexlify (hmac_sha256 key msg).

(** [hmac.compare_digest(a, b)] on two [str] arguments: both must be
    ASCII-only, otherwise the call raises [TypeError] ([None] here). *)
Definition compare_digest (a b : string) : option bool :=
  if Text.isascii a && Text.isascii b then Some (a =? b)%string else None.

End Hmac.

(* ------------------------------------------------------------------ *)
(** ** SQL operators used by the queries *)

Module Sql.

(** [x LIKE pattern] without an ESCAPE clause, on the characters the
    function reads of its two operands: [%] matches any run of characters,
    [_] any single character, every other pattern character matches itself,
    ASCII letters regardless of case. *)
Definition char_like (p c : ascii) : bool :=
  (Text.lower_char p =? Text.lower_char c)%char.

Fixpoint like_chars (p : list ascii) (s : list ascii) {struct p} : bool :=
  match p with
  | [] => match s with [] => true | _ => false end
  | c :: p' =>
      if (c =? "%")%char then
        (fix any_run (s : list ascii) : bool :=
           like_chars p' s
           || match s with
              | [] => false
              | _ :: s' => any_run s'
              end) s
      else
        match s with
        | [] => false
        | d :: s' =>
            ((c =? "_")%char || char_like c d) && like_chars p' s'
        end
  end.

(** A text value as the LIKE function reads it: up to, and without, its
    first NUL character. *)
Fixpoint c_string (l : list ascii) : list ascii :=
  match l with
  | [] => []
  | c :: r => if (c =? Ascii.zero)%char then [] else c :: c_string r
  end.

Definition like (x pattern : string) : bool :=
  like_chars (c_string (Text.chars pattern)) (c_string (Text.chars x)).

(** The LIKE function refuses a pattern of more than
    SQLITE_MAX_LIKE_PATTERN_LENGTH bytes, 50000 as the library is built by
    default: the statement then fails with the message [LIKE or GLOB pattern
    too complex]. *)
Definition max_like_pattern_length : Z := 50000.

Definition like_too_complex (pattern : string) : bool :=
  max_like_pattern_length <? Z.of_nat (List.length (Text.encode pattern)).

(** The driver hands a Python [int] to the engine as a signed 64-bit integer
    and raises OverflowError for one that does not fit. *)
Definition int64 (z : Z) : bool :=
  (-9223372036854775808 <=? z) && (z <=? 9223372036854775807).

(** [ORDER BY] as a stable insertion sort along [leb]. *)
Section OrderBy.
Context {A : Type} (leb : A -> A -> bool).

Fixpoint insert (x : A) (l : list A) : list A :=
  match l with
  | [] => [x]
  | y :: l' => if leb x y then x :: l else y :: insert x l'
  end.

Definition order_by (l : list A) : list A := fold_right insert [] l.
End OrderBy.

(** [LIMIT limit OFFSET offset] on 64-bit integers: a negative limit means
    no limit, a negative offset means none. *)
Definition limit_offset {A : Type} (limit offset : Z) (l : list A) : list A :=
  let rest := skipn (Z.to_nat offset) l in
  if limit <? 0 then rest else firstn (Z.to_nat limit) rest.

(** [MIN(col)] and [MAX(col)] over text values: NULL on no rows. *)
Definition min_text (l : list string) : option string :=
  match l with
  | [] => None
  | x :: r => Some (fold_left (fun m y => if String.ltb y m then y else m) r x)
  end.

Definition max_text (l : list string) : option string :=
  match l with
  | [] => None
  | x :: r => Some (fold_left (fun m y => if String.ltb m y then y else m) r x)
  end.

End Sql.

(* ------------------------------------------------------------------ *)
(** ** storage.py: the message repository *)

Module Storage.

(** One row of table [messages]; [message_id] is the primary key. *)
Record Row := mkRow {
  message_id : string;
  from_msisdn : string;
  to_msisdn : string;
  ts : string;
  text : option string;
  created_at : string
}.

Definition table := list Row.

(** The primary-key constraint of the schema. *)
Definition unique_ids (db : table) : Prop := NoDup (map message_id db).

Definition has_id (db : table) (id : string) : bool :=
  existsb (fun r => (message_id r =? id)%string) db.

(** [insert_message]: [True] and the row appended, or [False] and the table
    unchanged when the INSERT hits the primary key (IntegrityError, rolled
    back).  [now] is [datetime.utcnow().isoformat()]. *)
Definition insert_message (now : string) (db : table)
    (message_id from_msisdn to_msisdn ts : string) (text : option string)
  : bool * table :=
  let created_at := now ++ "Z" in
  if has_id db message_id then (false, db)
  else (true,
        (db ++ [mkRow message_id from_msisdn to_msisdn ts text created_at])%list).

(** The dictionaries [get_messages] returns. *)
Record message := mkMessage {
  m_message_id : string;
  m_from : string;
  m_to : string;
  m_ts : string;
  m_text : option string
}.

Definition to_message (r : Row) : message :=
  mkMessage (message_id r) (from_msisdn r) (to_msisdn r) (ts r) (text r).

(** The three conditions of the WHERE clause. *)
Definition cond_from (p : string) (r : Row) : bool :=
  (from_msisdn r =? p)%string.

Definition cond_since (p : string) (r : Row) : bool :=
  String.leb p (ts r).

(** The third is [LOWER(text) LIKE LOWER(?)] with the search term between
    two [%] signs, on a pattern that the function accepts; what a pattern
    that is too long does to the call is in [get_messages_call]. *)
Definition cond_q (q : string) (r : Row) : bool :=
  match text r with
  | None => false
  | Some t => Sql.like (Text.lower t) (Text.lower ("%" ++ q ++ "%"))
  end.

(** [conditions]: one entry per truthy filter argument. *)
Definition conditions (from_msisdn since q : option string)
  : list (Row -> bool) :=
  ((match from_msisdn with
    | Some p => if Text.truthy from_msisdn then [cond_from p] else []
    | None => []
    end)
   ++ (match since with
       | Some p => if Text.truthy since then [cond_since p] else []
       | None => []
       end)
   ++ (match q with
       | Some p => if Text.truthy q then [cond_q p] else []
       | None => []
       end))%list.

(** [" AND ".join(conditions)], or [1=1] when there is none. *)
Definition where_clause (conds : list (Row -> bool)) (r : Row) : bool :=
  forallb (fun c => c r) conds.

(** [ORDER BY ts ASC, message_id ASC]. *)
Definition row_leb (a b : Row) : bool :=
  String.ltb (ts a) (ts b)
  || ((ts a =? ts b)%string && String.leb (message_id a) (message_id b)).

(** [get_messages], what it returns: the page and the total count.  Whether
    a call returns is told by [get_messages_call] below. *)
Definition get_messages (db : table) (limit offset : Z)
    (from_msisdn since q : option string) : list message * Z :=
  let conds := conditions from_msisdn since q in
  let total := Z.of_nat (List.length (filter (where_clause conds) db)) in
  let rows :=
    Sql.limit_offset limit offset
      (Sql.order_by row_leb (filter (where_clause conds) db)) in
  (map to_message rows, total).

(** The exceptions a call of [get_messages] can end in: of the driver when
    it binds a parameter, of the engine when it runs a statement. *)
Inductive error : Type :=
| OverflowError
| OperationalError.

Inductive outcome (A : Type) : Type :=
| Returned (a : A)
| Raised (e : error).

Arguments Returned {A} a.
Arguments Raised {A} e.

(** A call of [get_messages].  The count statement runs first.  Its LIKE
    condition comes last, so the function is applied to the rows that pass
    the conditions before it, whatever their text, and refuses a pattern that
    is too long.  The page statement then gets [limit] and [offset] bound.
    A call that meets neither exception returns. *)
Definition get_messages_call (db : table) (limit offset : Z)
    (from_msisdn since q : option string) : outcome (list message * Z) :=
  if match q with
     | Some p =>
         Text.truthy q
         && Sql.like_too_complex (Text.lower ("%" ++ p ++ "%"))
         && existsb (where_clause (conditions from_msisdn since None)) db
     | None => false
     end
  then Raised OperationalError
  else if negb (Sql.int64 limit && Sql.int64 offset)
       then Raised OverflowError
       else Returned (get_messages db limit offset from_msisdn since q).

Record stats := mkStats {
  total_messages : Z;
  senders_count : Z;
  messages_per_sender : list (string * Z);
  first_message_ts : option string;
  last_message_ts : option string
}.

(** The GROUP BY of the top-senders query: one group per distinct sender,
    with its row count. *)
Definition senders (db : table) : list string :=
  nodup string_dec (map from_msisdn db).

Definition count_from (db : table) (s : string) : Z :=
  Z.of_nat (List.length (filter (cond_from s) db)).

Definition groups (db : table) : list (string * Z) :=
  map (fun s => (s, count_from db s))
      (Sql.order_by String.leb (senders db)).

(** [ORDER BY count DESC]; the order among equal counts is the engine's
    choice, here the order of the groups. *)
Definition count_desc (a b : string * Z) : bool := snd b <=? snd a.

Definition top_senders (db : table) : list (string * Z) :=
  Sql.limit_offset 10 0 (Sql.order_by count_desc (groups db)).

Definition get_stats (db : table) : stats :=
  let total := Z.of_nat (List.length db) in
  if total =? 0 then mkStats 0 0 [] None None
  else mkStats total
               (Z.of_nat (List.length (senders db)))
               (top_senders db)
               (Sql.min_text (map ts db))
               (Sql.max_text (map ts db)).

End Storage.

(* ------------------------------------------------------------------ *)
(** ** main.py: validation, signature check and the request handlers *)

Module Main.

(** A decoded JSON document.  The members of an object are the items of the
    Python dict [json.loads] builds, so their keys are distinct. *)
#[warnings="-register-all"]
Inductive json : Type :=
| JNull
| JBool (b : bool)
| JNumber (literal : string)
| JString (s : string)
| JArray (items : list json)
| JObject (members : list (string * json)).

(** The outcome of [json.loads(body_bytes.decode("utf-8"))]: a ValueError
    (UnicodeDecodeError, JSONDecodeError), a RecursionError (a document
    nested deeper than the interpreter's recursion limit), which is no
    ValueError, or a document. *)
Inductive loads : Type :=
| DecodeError
| RecursionError
| Loaded (doc : json).

Fixpoint get (key : string) (d : list (string * json)) : option json :=
  match d with
  | [] => None
  | (k, v) :: r => if (k =? key)%string then Some v else get key r
  end.

Record WebhookMessage := mkWebhookMessage {
  message_id : string;
  from_msisdn : string;
  to_msisdn : string;
  ts : string;
  text : option string
}.

(** A required [str] field: present and a string. *)
Definition str_field (d : list (string * json)) (key : string)
  : option string :=
  match get key d with
  | Some (JString s) => Some s
  | _ => None
  end.

(** An [Optional[str]] field with default [None]. *)
Definition optional_str_field (d : list (string * json)) (key : string)
  : option (option string) :=
  match get key d with
  | None | Some JNull => Some None
  | Some (JString s) => Some (Some s)
  | Some _ => None
  end.

Definition min_length (n : nat) (s : string) : option string :=
  if (n <=? String.length s)%nat then Some s else None.

Definition max_length (n : nat) (s : string) : option string :=
  if (String.length s <=? n)%nat then Some s else None.

(** [validate_msisdn]: [None] stands for the ValueError. *)
Definition validate_msisdn (v : string) : option string :=
  if negb (Text.startswith_char "+" v) then None
  else if negb (Text.isdigit (Text.tail v)) then None
  else Some v.

Definition bind {A B : Type} (o : option A) (f : A -> option B) : option B :=
  match o with
  | Some a => f a
  | None => None
  end.

Notation "x <- e ;; k" := (bind e (fun x => k))
  (at level 61, e at next level, right associativity).

Section Datetime.

(** [fromisoformat s] tells whether [datetime.fromisoformat(s)] returns
    (rather than raising ValueError); the accepted syntax depends on the
    interpreter's version. *)
Variable fromisoformat : string -> bool.

(** [validate_timestamp]: [None] stands for the ValueError. *)
Definition validate_timestamp (v : string) : option string :=
  if negb (Text.endswith_char "Z" v) then None
  else if fromisoformat (Text.replace_char "Z" "+00:00" v) then Some v
  else None.

(** [WebhookMessage( **body_dict )]: [None] stands for the ValidationError.
    Keys that name no field are ignored. *)
Definition validate (d : list (string * json)) : option WebhookMessage :=
  id <- bind (str_field d "message_id") (min_length 1) ;;
  from <- bind (str_field d "from_msisdn") validate_msisdn ;;
  to <- bind (str_field d "to_msisdn") validate_msisdn ;;
  t <- bind (str_field d "ts") validate_timestamp ;;
  txt <- bind (optional_str_field d "text")
              (fun o => match o with
                        | None => Some None
                        | Some s => bind (max_length 4096 s)
                                         (fun s' => Some (Some s'))
                        end) ;;
  Some (mkWebhookMessage id from to t txt).

End Datetime.

(** [verify_signature]: [None] stands for the TypeError of
    [hmac.compare_digest]. *)
Definition verify_signature (secret body_bytes signature : string)
  : option bool :=
  let expected :=
    Hmac.hexdigest (Text.encode secret) (Text.bytes body_bytes) in
  Hmac.compare_digest expected signature.

(** The calls a handler makes on the repository. *)
Inductive repo_call : Type :=
| InsertMessage (message_id from_msisdn to_msisdn ts : string)
                (text : option string)
| GetMessages (limit offset : Z) (from_msisdn since q : option string)
| GetStats.

(** What a request can observe and change: the table, the calls made on the
    repository so far, and the labels passed to [record_webhook_request]. *)
Record world := mkWorld {
  db : Storage.table;
  calls : list repo_call;
  webhook_requests : list string
}.

Definition record_webhook_request (result : string) (w : world) : world :=
  mkWorld (db w) (calls w) (webhook_requests w ++ [result])%list.

Definition storage_insert_message (now : string) (m : WebhookMessage)
    (w : world) : bool * world :=
  let (inserted, db') :=
    Storage.insert_message now (db w) (message_id m) (from_msisdn m)
      (to_msisdn m) (ts m) (text m) in
  (inserted,
   mkWorld db'
     (calls w ++ [InsertMessage (message_id m) (from_msisdn m)
                    (to_msisdn m) (ts m) (text m)])%list
     (webhook_requests w)).

Inductive response : Type :=
| WebhookResponse (status : string)
| MessagesResponse (data : list Storage.message) (total limit offset : Z)
| StatsResponse (s : Storage.stats)
| HTTPException (status_code : Z)
| RequestValidationError
| UnhandledError.

Definition status_code (r : response) : Z :=
  match r with
  | WebhookResponse _ | MessagesResponse _ _ _ _ | StatsResponse _ => 200
  | HTTPException c => c
  | RequestValidationError => 422
  | UnhandledError => 500
  end.

Section Handlers.

Variable fromisoformat : string -> bool.

(** POST /webhook.  [secret] is [settings.webhook_secret], [loaded] what
    parsing [body_bytes] gives once the handler gets there. *)
Definition webhook (secret now : string) (w : world)
    (x_signature : option string) (body_bytes : string) (loaded : loads)
  : response * world :=
  match x_signature with
  | None => (HTTPException 401, record_webhook_request "invalid_signature" w)
  | Some signature =>
      if negb (Text.truthy x_signature) then
        (HTTPException 401, record_webhook_request "invalid_signature" w)
      else
        match verify_signature secret body_bytes signature with
        | None => (UnhandledError, w)
        | Some false =>
            (HTTPException 401,
             record_webhook_request "invalid_signature" w)
        | Some true =>
            match loaded with
            | DecodeError =>
                (HTTPException 422,
                 record_webhook_request "validation_error" w)
            | RecursionError => (UnhandledError, w)
            | Loaded (JObject body_dict) =>
                match validate fromisoformat body_dict with
                | None =>
                    (HTTPException 422,
                     record_webhook_request "validation_error" w)
                | Some message =>
                    let (inserted, w') :=
                      storage_insert_message now message w in
                    let result :=
                      if inserted then "created" else "duplicate" in
                    (WebhookResponse "ok",
                     record_webhook_request result w')
                end
            | Loaded _ => (UnhandledError, w)
            end
        end
  end.

End Handlers.

(** An integer query parameter as the framework sees it. *)
Inductive query_int : Type :=
| Omitted
| Given (z : Z)
| NotAnInteger.

(** [Query(default, ge=..., le=...)]: [None] stands for the framework's
    validation error. *)
Definition Query (default ge : Z) (le : option Z) (v : query_int)
  : option Z :=
  match v with
  | Omitted => Some default
  | NotAnInteger => None
  | Given z =>
      if (ge <=? z)
         && match le with Some hi => z <=? hi | None => true end
      then Some z else None
  end.

(** GET /messages.  An exception of the repository call is not caught. *)
Definition get_messages (w : world) (limit offset : query_int)
    (from_msisdn since q : option string) : response * world :=
  match Query 50 1 (Some 100) limit, Query 0 0 None offset with
  | Some limit, Some offset =>
      let w' :=
        mkWorld (db w)
          (calls w ++ [GetMessages limit offset from_msisdn since q])%list
          (webhook_requests w) in
      match
        Storage.get_messages_call (db w) limit offset from_msisdn since q
      with
      | Storage.Returned (messages, total) =>
          (MessagesResponse messages total limit offset, w')
      | Storage.Raised _ => (UnhandledError, w')
      end
  | _, _ => (RequestValidationError, w)
  end.

(** GET /stats. *)
Definition get_stats (w : world) : response * world :=
  (StatsResponse (Storage.get_stats (db w)),
   mkWorld (db w) (calls w ++ [GetStats])%list (webhook_requests w)).

End Main.

(* ------------------------------------------------------------------ *)
(** ** config.py and models.py: settings and the database path *)

Module Config.

(** The environment of the process: [os.getenv]. *)
Definition environ : Type := string -> option string.

Definition getenv (env : environ) (key default : string) : string :=
  match env key with
  | Some v => v
  | None => default
  end.

Record Settings := mkSettings {
  database_url : string;
  log_level : string;
  webhook_secret : option string
}.

(** The global [settings = Settings()], read from the environment once. *)
Definition settings (env : environ) : Settings :=
  mkSettings (getenv env "DATABASE_URL" "sqlite:///data/app.db")
             (getenv env "LOG_LEVEL" "INFO")
             (env "WEBHOOK_SECRET").

(** [validate_webhook_secret]: [None] stands for the ValueError. *)
Definition validate_webhook_secret (s : Settings) : option unit :=
  if negb (Text.truthy (webhook_secret s)) then None else Some tt.

End Config.

Module Models.

(** [s.replace(old, new)] for a needle [old] that is not empty: the
    occurrences are taken from the left and do not overlap.  [skip] counts
    the characters of an occurrence still to pass over. *)
Fixpoint replace_from (old new : string) (skip : nat) (s : string) : string :=
  match s with
  | EmptyString => EmptyString
  | String c r =>
      match skip with
      | S k => replace_from old new k r
      | O =>
          if String.prefix old s
          then new ++ replace_from old new (String.length old - 1) r
          else String c (replace_from old new 0 r)
      end
  end.

Definition replace (old new s : string) : string := replace_from old new 0 s.

(** [get_db_path] (and [Storage._get_db_path], which is the same code): the
    string handed to [Path]. *)
Definition get_db_path (database_url : string) : string :=
  replace "sqlite:///" "" database_url.

End Models.

(* ------------------------------------------------------------------ *)
(** ** Sample data, after the repository's tests

    The messages are keyed by the field names of [WebhookMessage]. *)

Module Samples.

Definition digit (c : ascii) : option Z :=
  if (48 <=? Text.code c) && (Text.code c <=? 57)
  then Some (Text.code c - 48) else None.

Fixpoint number (acc : Z) (l : list ascii) : option Z :=
  match l with
  | [] => Some acc
  | c :: r =>
      match digit c with
      | Some d => number (10 * acc + d) r
      | None => None
      end
  end.

Definition leap (y : Z) : bool :=
  ((y mod 4 =? 0) && negb (y mod 100 =? 0)) || (y mod 400 =? 0).

Definition days_in_month (y m : Z) : Z :=
  if m =? 2 then (if leap y then 29 else 28)
  else if (m =? 4) || (m =? 6) || (m =? 9) || (m =? 11) then 30
  else 31.

(** An instance of [fromisoformat]: the strings of the form
    [YYYY-MM-DDTHH:MM:SS+00:00] that denote a date and a time of day, which
    [datetime.fromisoformat] accepts in every version of the interpreter. *)
Definition fromisoformat (s : string) : bool :=
  match Text.chars s with
  | [y1; y2; y3; y4; c1; m1; m2; c2; d1; d2; c3;
     h1; h2; c4; n1; n2; c5; s1; s2; c6; z1; z2; c7; z3; z4] =>
      match number 0 [y1; y2; y3; y4], number 0 [m1; m2],
            number 0 [d1; d2], number 0 [h1; h2],
            number 0 [n1; n2], number 0 [s1; s2] with
      | Some y, Some m, Some d, Some h, Some n, Some sec =>
          (Text.of_chars [c1; c2; c3; c4; c5; c6; z1; z2; c7; z3; z4]
           =? "--T::+00:00")%string
          && (1 <=? y) && (1 <=? m) && (m <=? 12)
          && (1 <=? d) && (d <=? days_in_month y m)
          && (h <? 24) && (n <? 60) && (sec <? 60)
      | _, _, _, _, _, _ => false
      end
  | _ => false
  end.

Definition quote : string := String "034"%char "".

Fixpoint members (l : list (string * string)) : string :=
  match l with
  | [] => ""
  | [(k, v)] => quote ++ k ++ quote ++ ": " ++ quote ++ v ++ quote
  | (k, v) :: r =>
      quote ++ k ++ quote ++ ": " ++ quote ++ v ++ quote ++ ", "
      ++ members r
  end.

(** [json.dumps] of a dict of plain strings, as the tests build a body. *)
Definition dumps (l : list (string * string)) : string :=
  "{" ++ members l ++ "}".

(** What [json.loads] gives back on such a body. *)
Definition decoded (l : list (string * string))
  : list (string * Main.json) :=
  map (fun kv => (fst kv, Main.JString (snd kv))) l.

Definition loads (l : list (string * string)) : Main.loads :=
  Main.Loaded (Main.JObject (decoded l)).

(** [calculate_signature] of the tests. *)
Definition calculate_signature (secret body : string) : string :=
  Hmac.hexdigest (Text.encode secret) (Text.encode body).

Definition webhook_secret : string := "test-secret-key".

Definition valid_message : list (string * string) :=
  [("message_id", "msg_123");
   ("from_msisdn", "+919876543210");
   ("to_msisdn", "+919876543211");
   ("ts", "2025-01-15T10:00:00Z");
   ("text", "Hello, world!")].

(** The same message with a superscript two, U+00B2, as the sender's only
    digit: the body as sent, with the character escaped, and the message
    it decodes to. *)
Definition superscript_body : string :=
  dumps [("message_id", "msg_123");
         ("from_msisdn", "+\u00b2");
         ("to_msisdn", "+919876543211");
         ("ts", "2025-01-15T10:00:00Z");
         ("text", "Hello, world!")].

Definition superscript_sender : string := String "+" (String "178" "").

Definition superscript_message : list (string * string) :=
  [("message_id", "msg_123");
   ("from_msisdn", superscript_sender);
   ("to_msisdn", "+919876543211");
   ("ts", "2025-01-15T10:00:00Z");
   ("text", "Hello, world!")].

Definition valid_webhook_message : Main.WebhookMessage :=
  Main.mkWebhookMessage "msg_123" "+919876543210" "+919876543211"
    "2025-01-15T10:00:00Z" (Some "Hello, world!").

Definition now : string := "2025-01-15T10:00:01.000000".

Definition empty_world : Main.world := Main.mkWorld [] [] [].

Definition seed : Storage.table :=
  [Storage.mkRow "msg_1" "+919876543210" "+919876543211"
     "2025-01-15T10:00:00Z" (Some "Hello") "2025-01-15T10:00:01.000000Z";
   Storage.mkRow "msg_2" "+919876543210" "+919876543212"
     "2025-01-15T10:01:00Z" (Some "World") "2025-01-15T10:00:02.000000Z";
   Storage.mkRow "msg_3" "+919876543211" "+919876543210"
     "2025-01-15T10:02:00Z" (Some "Hello there")
     "2025-01-15T10:00:03.000000Z"].

(** A table with one message, whose text is the letter a. *)
Definition underscore_table : Storage.table :=
  [Storage.mkRow "msg_1" "+919876543210" "+919876543211"
     "2025-01-15T10:00:00Z" (Some "a") "2025-01-15T10:00:01.000000Z"].

End Samples.

(* ------------------------------------------------------------------ *)
(** ** Vocabulary of the properties *)

(** Lexicographic order on strings, by code point. *)
Inductive lex_le : string -> string -> Prop :=
| lex_le_empty : forall t, lex_le "" t
| lex_le_head : forall a b s t,
    Text.code a < Text.code b -> lex_le (String a s) (String b t)
| lex_le_tail : forall a s t,
    lex_le s t -> lex_le (String a s) (String a t).

Definition lex_lt (s t : string) : Prop := lex_le s t /\ s <> t.

(** [q] occurs in [t] as a contiguous run of characters. *)
Definition occurs_in (q t : string) : Prop :=
  exists pre post : string, t = pre ++ q ++ post.

(** A filter argument constrains a row only when it is supplied and not
    empty. *)
Definition when_supplied (o : option string) (P : string -> Prop) : Prop :=
  forall p, o = Some p -> p <> "" -> P p.

(** The three filters of the listing, read off a row. *)
Definition satisfies (from_msisdn since q : option string)
    (r : Storage.Row) : Prop :=
  when_supplied from_msisdn (fun p => Storage.from_msisdn r = p)
  /\ when_supplied since (fun p => lex_le p (Storage.ts r))
  /\ when_supplied q (fun p => Storage.cond_q p r = true).

(** The number of rows of a table that have a property. *)
Inductive count_of (P : Storage.Row -> Prop) : Storage.table -> nat -> Prop :=
| count_nil : count_of P [] 0
| count_yes : forall r db n,
    P r -> count_of P db n -> count_of P (r :: db) (S n)
| count_no : forall r db n,
    ~ P r -> count_of P db n -> count_of P (r :: db) n.

(** Row [r] was sent by [s]. *)
Definition sent_by (s : string) (r : Storage.Row) : Prop :=
  Storage.from_msisdn r = s.

(** Entry [a] of a ranking does not count fewer rows than entry [b]. *)
Definition count_ge (a b : string * Z) : Prop := snd b <= snd a.

(** [top] ranks the senders of [db]: each entry is a sender of some row with
    the number of its rows; larger counts come first; no sender is listed
    twice; the entries are ten, or as many as there are senders when these
    are fewer; a sender left out has no more rows than any sender listed;
    and when there are at most ten senders none is left out. *)
Definition top_ranking (db : Storage.table) (top : list (string * Z)) : Prop :=
  (forall s c, In (s, c) top ->
      (exists r, In r db /\ sent_by s r)
      /\ exists n, count_of (sent_by s) db n /\ c = Z.of_nat n)
  /\ StronglySorted count_ge top
  /\ (List.length top <= 10)%nat
  /\ NoDup (map fst top)
  /\ (forall l, NoDup l ->
        (forall s, In s l <-> exists r, In r db /\ sent_by s r) ->
        List.length top = Nat.min 10 (List.length l))
  /\ (forall s n, (exists r, In r db /\ sent_by s r) ->
        count_of (sent_by s) db n ->
        ~ In (s, Z.of_nat n) top ->
        forall s' c', In (s', c') top -> Z.of_nat n <= c')
  /\ (forall l, NoDup l ->
        (forall s, In s l <-> exists r, In r db /\ sent_by s r) ->
        (List.length l <= 10)%nat ->
        forall s n, (exists r, In r db /\ sent_by s r) ->
          count_of (sent_by s) db n -> In (s, Z.of_nat n) top).

(** The pattern [^\+\d+$]: a plus sign, then one or more decimal digits, and
    nothing else. *)
Definition decimal_digit (c : ascii) : bool :=
  (48 <=? Text.code c) && (Text.code c <=? 57).

Definition e164 (s : string) : bool :=
  match Text.chars s with
  | plus :: d :: r => (plus =? "+")%char && forallb decimal_digit (d :: r)
  | _ => false
  end.

(** The order of a listing: by [ts], then by [message_id]. *)
Definition message_le (a b : Storage.message) : Prop :=
  lex_lt (Storage.m_ts a) (Storage.m_ts b)
  \/ (Storage.m_ts a = Storage.m_ts b
      /\ lex_le (Storage.m_message_id a) (Storage.m_message_id b)).

(** A character of a search term that is no wildcard of LIKE. *)
Definition literal (c : ascii) : Prop := c <> "%"%char /\ c <> "_"%char.

(** A string without the NUL character. *)
Definition nul_free (s : string) : Prop := ~ In Ascii.zero (Text.chars s).

(** The part of a text that LIKE reads: what comes before its first NUL
    character. *)
Definition read_by_like (t : string) : string :=
  Text.of_chars (Sql.c_string (Text.chars t)).

(** The length of a string in bytes, as the engine stores it. *)
Definition utf8_length (s : string) : Z :=
  Z.of_nat (List.length (Text.encode s)).

(** A search term that gives a pattern within the limit of LIKE: the term
    between two [%] signs has at most 50000 bytes. *)
Definition searchable (q : option string) : Prop :=
  when_supplied q
    (fun p => utf8_length p + 2 <= Sql.max_like_pattern_length).


(** The signature a request must carry: the lower-case hexadecimal
    HMAC-SHA256 of the body under the secret. *)
Definition expected_signature (secret body : string) : string :=
  Hmac.hexdigest (Text.encode secret) (Text.bytes body).

(** The two rejections of the webhook: the answer, and the request counted. *)
Definition unauthorized (w : Main.world) : Main.response * Main.world :=
  (Main.HTTPException 401,
   Main.record_webhook_request "invalid_signature" w).

Definition unprocessable (w : Main.world) : Main.response * Main.world :=
  (Main.HTTPException 422,
   Main.record_webhook_request "validation_error" w).

(** What the validator checks of a sender or recipient. *)
Definition plus_isdigit (v : string) : bool :=
  Text.startswith_char "+" v && Text.isdigit (Text.tail v).

(* ------------------------------------------------------------------ *)
(** ** Vocabulary of the further properties *)

(** The constraints of [WebhookMessage] on the fields of a message. *)
Definition well_formed (fromisoformat : string -> bool)
    (message_id from_msisdn to_msisdn ts : string) (text : option string)
  : Prop :=
  message_id <> ""
  /\ plus_isdigit from_msisdn = true
  /\ plus_isdigit to_msisdn = true
  /\ Text.endswith_char "Z" ts = true
  /\ fromisoformat (Text.replace_char "Z" "+00:00" ts) = true
  /\ (forall t, text = Some t -> (String.length t <= 4096)%nat).

(** A stored row whose fields meet these constraints and whose [created_at]
    is a clock reading followed by [Z]. *)
Definition row_valid (fromisoformat : string -> bool) (r : Storage.Row)
  : Prop :=
  well_formed fromisoformat (Storage.message_id r) (Storage.from_msisdn r)
    (Storage.to_msisdn r) (Storage.ts r) (Storage.text r)
  /\ exists now, Storage.created_at r = now ++ "Z".

(** The row [insert_message] writes for a message at a clock reading. *)
Definition row_of (now : string) (m : Main.WebhookMessage) : Storage.Row :=
  Storage.mkRow (Main.message_id m) (Main.from_msisdn m) (Main.to_msisdn m)
    (Main.ts m) (Main.text m) (now ++ "Z").

(** A decoded document that is a JSON object. *)
Definition is_object (j : Main.json) : bool :=
  match j with
  | Main.JObject _ => true
  | _ => false
  end.

(** The requests on the routes that reach the message table. *)
Inductive request : Type :=
| POST_webhook (now : string) (x_signature : option string)
               (body_bytes : string) (loaded : Main.loads)
| GET_messages (limit offset : Main.query_int)
               (from_msisdn since q : option string)
| GET_stats.

(** The application on one request, and on a sequence of requests served one
    after the other. *)
Definition serve (fromisoformat : string -> bool) (secret : string)
    (w : Main.world) (req : request) : Main.response * Main.world :=
  match req with
  | POST_webhook now x_signature body_bytes loaded =>
      Main.webhook fromisoformat secret now w x_signature body_bytes loaded
  | GET_messages limit offset from_msisdn since q =>
      Main.get_messages w limit offset from_msisdn since q
  | GET_stats => Main.get_stats w
  end.

Definition serve_all (fromisoformat : string -> bool) (secret : string)
    (w : Main.world) (reqs : list request) : Main.world :=
  fold_left (fun w req => snd (serve fromisoformat secret w req)) reqs w.

(** The number of requests counted under a label. *)
Definition counted (label : string) (labels : list string) : nat :=
  count_occ string_dec labels label.

(** What a request to the webhook does to the world: nothing, or one more
    request counted, or a call of the repository that finds the identifier
    stored, or one that appends a row. *)
Inductive webhook_effect (fromisoformat : string -> bool) (now : string)
    (w w' : Main.world) : Prop :=
| effect_none : w' = w -> webhook_effect fromisoformat now w w'
| effect_rejected : forall label,
    label = "invalid_signature" \/ label = "validation_error" ->
    w' = Main.record_webhook_request label w ->
    webhook_effect fromisoformat now w w'
| effect_duplicate : forall m,
    well_formed fromisoformat (Main.message_id m) (Main.from_msisdn m)
      (Main.to_msisdn m) (Main.ts m) (Main.text m) ->
    Storage.has_id (Main.db w) (Main.message_id m) = true ->
    w' = Main.mkWorld (Main.db w)
           (Main.calls w
            ++ [Main.InsertMessage (Main.message_id m) (Main.from_msisdn m)
                  (Main.to_msisdn m) (Main.ts m) (Main.text m)])%list
           (Main.webhook_requests w ++ ["duplicate"])%list ->
    webhook_effect fromisoformat now w w'
| effect_created : forall m,
    well_formed fromisoformat (Main.message_id m) (Main.from_msisdn m)
      (Main.to_msisdn m) (Main.ts m) (Main.text m) ->
    Storage.has_id (Main.db w) (Main.message_id m) = false ->
    w' = Main.mkWorld (Main.db w ++ [row_of now m])%list
           (Main.calls w
            ++ [Main.InsertMessage (Main.message_id m) (Main.from_msisdn m)
                  (Main.to_msisdn m) (Main.ts m) (Main.text m)])%list
           (Main.webhook_requests w ++ ["created"])%list ->
    webhook_effect fromisoformat now w w'.

(** The sum of the counts of a ranking. *)
Definition total_count (ranking : list (string * Z)) : Z :=
  fold_right Z.add 0 (map snd ranking).

(** [setup_logging] of logging_utils.py, as far as it can fail:
    [root_logger.setLevel(log_level)] raises ValueError for a name the
    logging module does not know, and [None] stands for it.  [level_known]
    tells the names it knows when the application starts: those of the
    standard library, and any that a module loaded before has added. *)
Definition setup_logging (level_known : string -> bool) (log_level : string)
  : option unit :=
  if level_known log_level then Some tt else None.

(** The start of the application, the module level of main.py: the check of
    the secret, made when [TESTING] is unset or empty, then [setup_logging],
    then [init_db]; [None] when one of them raises.  [init_db] tells whether
    the call of that name returns for a URL: whether the directory can be
    made, the file opened and the table and indexes created. *)
Definition startup (level_known : string -> bool) (init_db : string -> bool)
    (env : Config.environ) : option Config.Settings :=
  let settings := Config.settings env in
  match
    (if negb (Text.truthy (env "TESTING"))
     then Config.validate_webhook_secret settings
     else Some tt)
  with
  | None => None
  | Some _ =>
      match setup_logging level_known (Config.log_level settings) with
      | None => None
      | Some _ =>
          if init_db (Config.database_url settings) then Some settings
          else None
      end
  end.

(** GET /health/ready; [reachable] is what [Storage.check_health] finds. *)
Inductive readiness : Type :=
| Ready
| Unavailable (content : string).

Definition health_ready (reachable : bool) (settings : Config.Settings)
  : readiness :=
  if negb reachable then Unavailable "Database not ready"
  else if negb (Text.truthy (Config.webhook_secret settings))
       then Unavailable "WEBHOOK_SECRET not set"
       else Ready.


(** Further sample data: the valid message with another text, and a sequence
    of requests on the three routes. *)
Module MoreSamples.

Definition changed_message : list (string * string) :=
  [("message_id", "msg_123");
   ("from_msisdn", "+919876543210");
   ("to_msisdn", "+919876543211");
   ("ts", "2025-01-15T10:00:00Z");
   ("text", "Changed")].


Definition post (message : list (string * string)) : request :=
  POST_webhook Samples.now
    (Some (expected_signature Samples.webhook_secret (Samples.dumps message)))
    (Samples.dumps message) (Samples.loads message).

Definition requests : list request :=
  [post Samples.valid_message;
   GET_messages Main.Omitted Main.Omitted None None None;
   post changed_message;
   GET_stats].

(** The level names of the logging module of the standard library. *)
Definition standard_levels (name : string) : bool :=
  existsb (String.eqb name)
    ["CRITICAL"; "FATAL"; "ERROR"; "WARN"; "WARNING"; "INFO"; "DEBUG";
     "NOTSET"].

(** An environment with the secret of the tests and a log level. *)
Definition environment (log_level : string) : Config.environ :=
  fun key =>
    if (key =? "WEBHOOK_SECRET")%string then Some Samples.webhook_secret
    else if (key =? "LOG_LEVEL")%string then Some log_level
    else None.

End MoreSamples.

(* ------------------------------------------------------------------ *)
(** ** Strings and their order *)

Section StringOrder.

Lemma ascii_compare_code a b :
  Ascii.compare a b = (Text.code a ?= Text.code b).
Proof.
  unfold Ascii.compare, Text.code. now rewrite N2Z.inj_compare.
Qed.

Lemma code_inj a b : Text.code a = Text.code b -> a = b.
Proof.
  unfold Text.code. intros H. apply N2Z.inj in H.
  rewrite <- (ascii_N_embedding a), <- (ascii_N_embedding b).
  now rewrite H.
Qed.

Lemma code_range c : 0 <= Text.code c < 256.
Proof.
  unfold Text.code. pose proof (N_ascii_bounded c). lia.
Qed.

Lemma compare_lex_le s t : String.compare s t <> Gt <-> lex_le s t.
Proof.
  revert t. induction s as [|a s IH]; intros [|b t]; simpl.
  - split; [constructor | discriminate].
  - split; [constructor | discriminate].
  - split; [congruence | inversion 1].
  - rewrite ascii_compare_code.
    destruct (Z.compare_spec (Text.code a) (Text.code b)) as [E|L|G].
    + apply code_inj in E. subst b. rewrite IH. split.
      * now constructor.
      * inversion 1; subst; [lia | assumption].
    + split; [now constructor | discriminate].
    + split; [congruence |].
      inversion 1; subst; lia.
Qed.

Lemma leb_lex_le s t : String.leb s t = true <-> lex_le s t.
Proof.
  rewrite <- compare_lex_le. unfold String.leb.
  destruct (String.compare s t); split; congruence.
Qed.

Lemma compare_refl s : String.compare s s = Eq.
Proof.
  induction s as [|a s IH]; simpl; [reflexivity|].
  rewrite ascii_compare_code, Z.compare_refl. exact IH.
Qed.

Lemma compare_Eq_iff s t : String.compare s t = Eq <-> s = t.
Proof.
  split; [apply String.compare_eq_iff | intros ->; apply compare_refl].
Qed.

Lemma ltb_lex_lt s t : String.ltb s t = true <-> lex_lt s t.
Proof.
  unfold lex_lt. rewrite <- compare_lex_le. unfold String.ltb.
  destruct (String.compare s t) eqn:E; split; try congruence.
  - intros [_ N]. apply compare_Eq_iff in E. contradiction.
  - intros _. split; [discriminate|]. intros ->.
    rewrite compare_refl in E. discriminate.
  - intros [N _]. congruence.
Qed.

Lemma lex_le_refl s : lex_le s s.
Proof. induction s; now constructor. Qed.

Lemma lex_le_trans s t u : lex_le s t -> lex_le t u -> lex_le s u.
Proof.
  intros H. revert u. induction H; intros u Hu.
  - constructor.
  - inversion Hu; subst.
    + apply lex_le_head. lia.
    + now apply lex_le_head.
  - inversion Hu; subst.
    + now apply lex_le_head.
    + apply lex_le_tail. auto.
Qed.

Lemma lex_le_antisym s t : lex_le s t -> lex_le t s -> s = t.
Proof.
  intros H. induction H; intros Hb.
  - now inversion Hb.
  - inversion Hb; subst; lia.
  - inversion Hb; subst; [lia | f_equal; auto].
Qed.

Lemma lex_le_total s t : lex_le s t \/ lex_le t s.
Proof.
  rewrite <- !leb_lex_le. apply String.leb_total.
Qed.

Lemma lex_lt_le_trans s t u : lex_lt s t -> lex_le t u -> lex_lt s u.
Proof.
  intros [H N] Hu. split; [eapply lex_le_trans; eauto|].
  intros ->. apply N. now apply lex_le_antisym.
Qed.

Lemma lex_le_lt_trans s t u : lex_le s t -> lex_lt t u -> lex_lt s u.
Proof.
  intros H [Hu N]. split; [eapply lex_le_trans; eauto|].
  intros ->. apply N. now apply lex_le_antisym.
Qed.

End StringOrder.

(* ------------------------------------------------------------------ *)
(** ** ORDER BY and LIMIT/OFFSET *)

Section OrderByFacts.

Context {A : Type} (leb : A -> A -> bool) (R : A -> A -> Prop).

Lemma insert_perm x l : Permutation (Sql.insert leb x l) (x :: l).
Proof.
  induction l as [|y l IH]; simpl; [reflexivity|].
  destruct (leb x y); [reflexivity|].
  rewrite IH. apply perm_swap.
Qed.

Lemma order_by_perm l : Permutation (Sql.order_by leb l) l.
Proof.
  induction l as [|x l IH]; simpl; [reflexivity|].
  rewrite insert_perm. now constructor.
Qed.

Lemma order_by_In x l : In x (Sql.order_by leb l) <-> In x l.
Proof.
  split; apply Permutation_in;
    [apply order_by_perm | symmetry; apply order_by_perm].
Qed.

Lemma order_by_length l : List.length (Sql.order_by leb l) = List.length l.
Proof. apply Permutation_length, order_by_perm. Qed.

Hypothesis R_trans : forall a b c, R a b -> R b c -> R a c.
Hypothesis leb_true : forall a b, leb a b = true -> R a b.
Hypothesis leb_false : forall a b, leb a b = false -> R b a.

Lemma insert_sorted x l :
  StronglySorted R l -> StronglySorted R (Sql.insert leb x l).
Proof.
  induction 1 as [|y l Hl IH Hy]; simpl.
  - repeat constructor.
  - destruct (leb x y) eqn:E.
    + constructor; [now constructor|].
      constructor; [auto|].
      rewrite Forall_forall in *. eauto.
    + constructor; [assumption|].
      rewrite Forall_forall in *. intros z Hz.
      apply (Permutation_in _ (insert_perm x l)) in Hz.
      destruct Hz as [<- | Hz]; auto.
Qed.

Lemma order_by_sorted l : StronglySorted R (Sql.order_by leb l).
Proof.
  induction l as [|x l IH]; simpl; [constructor | now apply insert_sorted].
Qed.

End OrderByFacts.

Section Pagination.

Context {A : Type}.

Lemma In_firstn n (l : list A) x : In x (firstn n l) -> In x l.
Proof.
  intros H. rewrite <- (firstn_skipn n l). apply in_or_app. now left.
Qed.

Lemma In_skipn n (l : list A) x : In x (skipn n l) -> In x l.
Proof.
  intros H. rewrite <- (firstn_skipn n l). apply in_or_app. now right.
Qed.

Lemma In_limit_offset limit offset (l : list A) x :
  In x (Sql.limit_offset limit offset l) -> In x l.
Proof.
  unfold Sql.limit_offset. destruct (limit <? 0); intros H.
  - eapply In_skipn; eauto.
  - eapply In_skipn, In_firstn; eauto.
Qed.

Lemma StronglySorted_skipn (R : A -> A -> Prop) n l :
  StronglySorted R l -> StronglySorted R (skipn n l).
Proof.
  revert l. induction n as [|n IH]; intros l H; [exact H|].
  destruct l as [|x l]; [exact H|].
  simpl. apply IH. now inversion H.
Qed.

Lemma StronglySorted_firstn (R : A -> A -> Prop) n l :
  StronglySorted R l -> StronglySorted R (firstn n l).
Proof.
  revert l. induction n as [|n IH]; intros l H; [constructor|].
  destruct l as [|x l]; [constructor|].
  simpl. inversion H as [|? ? Hl Hx]; subst.
  constructor; [auto|].
  rewrite Forall_forall in *. intros y Hy. apply Hx.
  eapply In_firstn; eauto.
Qed.

Lemma StronglySorted_limit_offset (R : A -> A -> Prop) limit offset l :
  StronglySorted R l -> StronglySorted R (Sql.limit_offset limit offset l).
Proof.
  intros H. unfold Sql.limit_offset. destruct (limit <? 0).
  - now apply StronglySorted_skipn.
  - now apply StronglySorted_firstn, StronglySorted_skipn.
Qed.

(** Every element of a list is on the one-row page that starts at it. *)
Lemma In_some_page (l : list A) x limit :
  0 < limit -> In x l ->
  exists offset, 0 <= offset /\ In x (Sql.limit_offset limit offset l).
Proof.
  intros Hl Hx. apply In_nth_error in Hx. destruct Hx as [i Hi].
  exists (Z.of_nat i). split; [lia|].
  unfold Sql.limit_offset. rewrite Nat2Z.id.
  destruct (limit <? 0) eqn:E; [lia|].
  assert (Hs : hd_error (skipn i l) = Some x)
    by now rewrite hd_error_skipn.
  destruct (skipn i l) as [|y r]; [discriminate|].
  simpl in Hs. injection Hs as ->.
  destruct (Z.to_nat limit) eqn:En; [lia|]. now left.
Qed.

End Pagination.

(* ------------------------------------------------------------------ *)
(** ** The listing: filters, total, order *)

Section Listing.

Import Storage.

Lemma truthy_Some p : Text.truthy (Some p) = true <-> p <> "".
Proof.
  simpl. destruct (String.eqb_spec p ""); simpl; split; congruence.
Qed.

Lemma where_clause_app c1 c2 r :
  where_clause (c1 ++ c2) r = where_clause c1 r && where_clause c2 r.
Proof. unfold where_clause. apply forallb_app. Qed.

(** One optional filter: the condition it adds holds exactly when the
    argument is absent, empty, or satisfied. *)
Lemma condition_spec (o : option string) (c : string -> Row -> bool) r :
  where_clause
    (match o with
     | Some p => if Text.truthy o then [c p] else []
     | None => []
     end) r = true
  <-> when_supplied o (fun p => c p r = true).
Proof.
  unfold when_supplied. destruct o as [p|]; [|split; [congruence|auto]].
  destruct (Text.truthy (Some p)) eqn:T.
  - apply truthy_Some in T. simpl. rewrite andb_true_r. split.
    + intros H p' [= <-] _. exact H.
    + intros H. now apply H.
  - assert (p = "").
    { destruct (String.eqb_spec p ""); [assumption|].
      apply truthy_Some in n. congruence. }
    subst p. simpl. split; [|auto]. intros _ p' [= <-] N. now contradict N.
Qed.

Lemma when_supplied_iff o (P Q : string -> Prop) :
  (forall p, P p <-> Q p) -> when_supplied o P <-> when_supplied o Q.
Proof.
  unfold when_supplied. intros E.
  split; intros H p Hp Hn; apply E; auto.
Qed.

Lemma where_clause_satisfies from since q r :
  where_clause (conditions from since q) r = true
  <-> satisfies from since q r.
Proof.
  unfold conditions, satisfies.
  rewrite !where_clause_app, !andb_true_iff, !condition_spec.
  rewrite (when_supplied_iff from _ (fun p => from_msisdn r = p))
    by (intro; apply String.eqb_eq).
  rewrite (when_supplied_iff since _ (fun p => lex_le p (ts r)))
    by (intro; apply leb_lex_le).
  reflexivity.
Qed.

End Listing.

Section ListingTheorems.

Import Storage.

Lemma count_of_filter (P : Row -> Prop) (f : Row -> bool) db :
  (forall r, f r = true <-> P r) ->
  count_of P db (List.length (filter f db)).
Proof.
  intros E. induction db as [|r db IH]; simpl; [constructor|].
  destruct (f r) eqn:F; simpl.
  - apply count_yes; [now apply E | exact IH].
  - apply count_no; [|exact IH]. rewrite <- E. congruence.
Qed.

Lemma count_of_unique (P : Row -> Prop) db n m :
  count_of P db n -> count_of P db m -> n = m.
Proof.
  intros H. revert m. induction H; intros m Hm; inversion Hm; subst;
    try contradiction; auto.
Qed.

Lemma StronglySorted_map {A B : Type} (f : A -> B) (R : B -> B -> Prop) l :
  StronglySorted (fun a b => R (f a) (f b)) l ->
  StronglySorted R (map f l).
Proof.
  induction 1 as [|x l Hl IH Hx]; simpl; constructor; [assumption|].
  rewrite Forall_forall in *. intros y Hy.
  apply in_map_iff in Hy. destruct Hy as [z [<- Hz]]. auto.
Qed.

Lemma message_le_trans a b c :
  message_le a b -> message_le b c -> message_le a c.
Proof.
  unfold message_le. intros [H1 | [E1 H1]] [H2 | [E2 H2]].
  - left. eapply lex_lt_le_trans; [eassumption | apply H2].
  - left. now rewrite <- E2.
  - left. now rewrite E1.
  - right. split; [congruence | eapply lex_le_trans; eauto].
Qed.

Lemma row_leb_true a b :
  row_leb a b = true -> message_le (to_message a) (to_message b).
Proof.
  unfold row_leb, message_le. simpl. intros H.
  apply orb_true_iff in H. destruct H as [H | H].
  - left. now apply ltb_lex_lt.
  - apply andb_true_iff in H. destruct H as [E H].
    right. split; [now apply String.eqb_eq | now apply leb_lex_le].
Qed.

Lemma row_leb_false a b :
  row_leb a b = false -> message_le (to_message b) (to_message a).
Proof.
  unfold row_leb, message_le. simpl. intros H.
  apply orb_false_iff in H. destruct H as [L H].
  destruct (String.eqb_spec (ts a) (ts b)) as [E | N]; simpl in H.
  - right. split; [congruence|].
    destruct (lex_le_total (message_id a) (message_id b)) as [T | T];
      [|exact T].
    apply leb_lex_le in T. congruence.
  - left. split; [|congruence].
    destruct (lex_le_total (ts a) (ts b)) as [T | T]; [|exact T].
    assert (lex_lt (ts a) (ts b)) as Hlt by (split; assumption).
    apply ltb_lex_lt in Hlt. congruence.
Qed.

Lemma get_messages_unfold db limit offset from since q :
  get_messages db limit offset from since q
  = (map to_message
       (Sql.limit_offset limit offset
          (Sql.order_by row_leb
             (filter (where_clause (conditions from since q)) db))),
     Z.of_nat
       (List.length (filter (where_clause (conditions from since q)) db))).
Proof. reflexivity. Qed.

Lemma limit_offset_all {A : Type} (l : list A) :
  Sql.limit_offset (-1) 0 l = l.
Proof. reflexivity. Qed.

Lemma limit_offset_map {A B : Type} (f : A -> B) limit offset l :
  Sql.limit_offset limit offset (map f l)
  = map f (Sql.limit_offset limit offset l).
Proof.
  unfold Sql.limit_offset. destruct (limit <? 0).
  - now rewrite skipn_map.
  - now rewrite skipn_map, firstn_map.
Qed.

(** C10: a filter argument equal to the empty string is the same as no
    filter argument: the page and the total are those of the call without
    it, so [from_msisdn = ""] does not select the rows whose sender is the
    empty string, and with all three empty the result is that of the
    unfiltered call. *)
Theorem C10_empty_filter_is_no_filter :
  forall db limit offset from since q,
    get_messages db limit offset (Some "") since q
      = get_messages db limit offset None since q
    /\ get_messages db limit offset from (Some "") q
      = get_messages db limit offset from None q
    /\ get_messages db limit offset from since (Some "")
      = get_messages db limit offset from since None
    /\ get_messages db limit offset (Some "") (Some "") (Some "")
      = get_messages db limit offset None None None
    /\ snd (get_messages db limit offset (Some "") None None)
      = Z.of_nat (List.length db).
Proof.
  intros db limit offset from since q.
  assert (Hall : forall db : table, filter (where_clause []) db = db).
  { intros l. induction l as [|r l IH]; simpl; congruence. }
  split; [reflexivity|].
  split.
  { unfold get_messages, conditions. simpl.
    destruct from as [p|]; reflexivity. }
  split.
  { unfold get_messages, conditions. simpl.
    destruct from as [p|]; destruct since as [t|];
      rewrite ?app_nil_r; reflexivity. }
  split; [reflexivity|].
  rewrite get_messages_unfold. simpl. now rewrite Hall.
Qed.

(** C4: the total returned by the listing is the number of stored rows that
    satisfy the filters; it is the same for every limit and offset, which
    only cut the page out of the full ordered result, whose length is the
    total. *)
Theorem C4_total_counts_matches_before_pagination :
  forall db limit offset from since q,
    let full := fst (get_messages db (-1) 0 from since q) in
    (exists n, count_of (satisfies from since q) db n
               /\ snd (get_messages db limit offset from since q)
                  = Z.of_nat n)
    /\ (forall limit' offset',
           snd (get_messages db limit' offset' from since q)
           = snd (get_messages db limit offset from since q))
    /\ fst (get_messages db limit offset from since q)
       = Sql.limit_offset limit offset full
    /\ snd (get_messages db limit offset from since q)
       = Z.of_nat (List.length full).
Proof.
  intros db limit offset from since q full. subst full.
  rewrite !get_messages_unfold. simpl.
  split; [|split; [|split]].
  - eexists. split; [|reflexivity].
    apply count_of_filter. intro r. apply where_clause_satisfies.
  - reflexivity.
  - rewrite limit_offset_all. now rewrite limit_offset_map.
  - rewrite limit_offset_all, length_map, order_by_length. reflexivity.
Qed.

(** C5: whatever the filters, the page is sorted by [ts] ascending, rows
    with equal [ts] by [message_id] ascending. *)
Theorem C5_page_sorted_by_ts_then_id :
  forall db limit offset from since q,
    StronglySorted message_le
      (fst (get_messages db limit offset from since q)).
Proof.
  intros. rewrite get_messages_unfold. simpl.
  apply StronglySorted_map, StronglySorted_limit_offset.
  apply (order_by_sorted row_leb).
  - intros a b c. apply message_le_trans.
  - apply row_leb_true.
  - apply row_leb_false.
Qed.

(** C9: with several filters the listing is their conjunction.  A message
    is on a page only if it comes from a stored row whose sender equals
    [from_msisdn], whose [ts] is at or after [since] in lexicographic
    order, and whose text matches [q], each when supplied; every such row
    is in the full result, is on some page for any positive limit, and the
    total counts exactly these rows. *)
Theorem C9_filters_compose_by_conjunction :
  forall db from since q,
    (forall limit offset m,
        In m (fst (get_messages db limit offset from since q)) ->
        exists r, In r db /\ satisfies from since q r /\ m = to_message r)
    /\ (forall r, In r db -> satisfies from since q r ->
          In (to_message r) (fst (get_messages db (-1) 0 from since q))
          /\ forall limit, 0 < limit ->
               exists offset, 0 <= offset
                 /\ In (to_message r)
                      (fst (get_messages db limit offset from since q)))
    /\ (exists n, count_of (satisfies from since q) db n
                  /\ forall limit offset,
                       snd (get_messages db limit offset from since q)
                       = Z.of_nat n).
Proof.
  intros db from since q.
  assert (Hfull : forall r, In r db -> satisfies from since q r ->
            In r (Sql.order_by row_leb
                    (filter (where_clause (conditions from since q)) db))).
  { intros r Hin Hs. apply order_by_In, filter_In.
    split; [assumption | now apply where_clause_satisfies]. }
  split; [|split].
  - intros limit offset m. rewrite get_messages_unfold. simpl. intros H.
    apply in_map_iff in H. destruct H as [r [<- H]].
    apply In_limit_offset, order_by_In, filter_In in H.
    destruct H as [Hin Hw]. exists r.
    split; [assumption|].
    split; [now apply where_clause_satisfies | reflexivity].
  - intros r Hin Hs. split.
    + rewrite get_messages_unfold. simpl. rewrite limit_offset_all.
      now apply in_map, Hfull.
    + intros limit Hl.
      destruct (In_some_page _ _ limit Hl (Hfull r Hin Hs))
        as [offset [Ho Hp]].
      exists offset. split; [assumption|].
      rewrite get_messages_unfold. simpl. now apply in_map.
  - eexists. split.
    + apply count_of_filter. intro r. apply where_clause_satisfies.
    + reflexivity.
Qed.

End ListingTheorems.

(* ------------------------------------------------------------------ *)
(** ** Statistics *)

Section Stats.

Import Storage.

Lemma count_from_spec db s n :
  count_of (sent_by s) db n <-> count_from db s = Z.of_nat n.
Proof.
  assert (H : count_of (sent_by s) db
                (List.length (filter (cond_from s) db))).
  { apply count_of_filter. intro r. apply String.eqb_eq. }
  unfold count_from. split.
  - intro Hn. f_equal. eapply count_of_unique; eauto.
  - intro E. apply Nat2Z.inj in E. now rewrite <- E.
Qed.

Lemma senders_spec db s :
  In s (senders db) <-> exists r, In r db /\ sent_by s r.
Proof.
  unfold senders, sent_by. rewrite nodup_In, in_map_iff.
  split; intros [r H]; exists r; tauto.
Qed.

Lemma senders_NoDup db : NoDup (senders db).
Proof. apply NoDup_nodup. Qed.

(** Any duplicate-free enumeration of the senders has as many entries. *)
Lemma senders_length db l :
  NoDup l -> (forall s, In s l <-> exists r, In r db /\ sent_by s r) ->
  List.length (senders db) = List.length l.
Proof.
  intros Hl Hs. apply Permutation_length.
  apply NoDup_Permutation; [apply senders_NoDup | assumption|].
  intro s. now rewrite senders_spec, Hs.
Qed.

Lemma groups_In db s c :
  In (s, c) (groups db) <-> In s (senders db) /\ c = count_from db s.
Proof.
  unfold groups. rewrite in_map_iff. split.
  - intros [x [[= <- <-] H]]. apply order_by_In in H. auto.
  - intros [H ->]. exists s. split; [reflexivity|].
    now apply order_by_In.
Qed.

Lemma groups_keys db : map fst (groups db) = Sql.order_by String.leb (senders db).
Proof.
  unfold groups. rewrite map_map. simpl. apply map_id.
Qed.

Lemma ranked_perm db :
  Permutation (Sql.order_by count_desc (groups db)) (groups db).
Proof. apply order_by_perm. Qed.

Lemma ranked_sorted db :
  StronglySorted count_ge (Sql.order_by count_desc (groups db)).
Proof.
  apply (order_by_sorted count_desc); unfold count_ge, count_desc.
  - intros a b c. lia.
  - intros a b H. apply Z.leb_le in H. exact H.
  - intros a b H. apply Z.leb_gt in H. lia.
Qed.

Lemma ranked_keys_NoDup db :
  NoDup (map fst (Sql.order_by count_desc (groups db))).
Proof.
  eapply Permutation_NoDup.
  - symmetry. apply Permutation_map, ranked_perm.
  - rewrite groups_keys. eapply Permutation_NoDup.
    + symmetry. apply order_by_perm.
    + apply senders_NoDup.
Qed.

Lemma top_senders_unfold db :
  top_senders db = firstn 10 (Sql.order_by count_desc (groups db)).
Proof. reflexivity. Qed.

Lemma StronglySorted_app_cross {A : Type} (R : A -> A -> Prop) l1 l2 :
  StronglySorted R (l1 ++ l2) ->
  forall a b, In a l1 -> In b l2 -> R a b.
Proof.
  induction l1 as [|x l1 IH]; simpl; intros H a b Ha Hb; [contradiction|].
  inversion H as [|? ? Hs Hx]; subst.
  destruct Ha as [<- | Ha].
  - rewrite Forall_forall in Hx. apply Hx, in_or_app. now right.
  - eapply IH; eauto.
Qed.

(** The properties of the ranking returned for a table. *)
Lemma top_senders_spec db :
  let top := top_senders db in
  (forall s c, In (s, c) top ->
      (exists r, In r db /\ sent_by s r) /\ c = count_from db s)
  /\ StronglySorted count_ge top
  /\ (List.length top <= 10)%nat
  /\ NoDup (map fst top)
  /\ List.length top = Nat.min 10 (List.length (senders db))
  /\ (forall s, (exists r, In r db /\ sent_by s r) ->
        ~ In (s, count_from db s) top ->
        forall s' c', In (s', c') top -> count_from db s <= c')
  /\ ((List.length (senders db) <= 10)%nat ->
      forall s, (exists r, In r db /\ sent_by s r) ->
        In (s, count_from db s) top).
Proof.
  intros top. subst top. rewrite top_senders_unfold.
  set (ranked := Sql.order_by count_desc (groups db)).
  assert (Hin : forall s c, In (s, c) ranked <->
                  In s (senders db) /\ c = count_from db s).
  { intros s c. unfold ranked. rewrite order_by_In. apply groups_In. }
  assert (Hlen : List.length ranked = List.length (senders db)).
  { unfold ranked. rewrite order_by_length. unfold groups.
    now rewrite length_map, order_by_length. }
  split; [|split; [|split; [|split; [|split; [|split]]]]].
  - intros s c H. apply In_firstn, Hin in H.
    destruct H as [H ->]. split; [now apply senders_spec | reflexivity].
  - apply StronglySorted_firstn, ranked_sorted.
  - apply firstn_le_length.
  - rewrite <- firstn_map.
    pose proof (ranked_keys_NoDup db) as N. fold ranked in N.
    rewrite <- (firstn_skipn 10 (map fst ranked)) in N.
    now apply NoDup_app_remove_r in N.
  - now rewrite length_firstn, Hlen.
  - intros s Hs Hout s' c' Hin'.
    assert (Hr : In (s, count_from db s) ranked).
    { apply Hin. split; [now apply senders_spec | reflexivity]. }
    rewrite <- (firstn_skipn 10 ranked) in Hr.
    apply in_app_or in Hr. destruct Hr as [Hr | Hr]; [contradiction|].
    pose proof (ranked_sorted db) as S. fold ranked in S.
    rewrite <- (firstn_skipn 10 ranked) in S.
    exact (StronglySorted_app_cross _ _ _ S _ _ Hin' Hr).
  - intros Hle s Hs.
    rewrite firstn_all2.
    + apply Hin. split; [now apply senders_spec | reflexivity].
    + unfold ranked. rewrite order_by_length. unfold groups.
      now rewrite length_map, order_by_length.
Qed.

End Stats.

Section StatsTheorem.

Import Storage.

Lemma get_stats_nonempty db :
  db <> [] ->
  get_stats db
  = mkStats (Z.of_nat (List.length db))
            (Z.of_nat (List.length (senders db)))
            (top_senders db)
            (Sql.min_text (map ts db))
            (Sql.max_text (map ts db)).
Proof.
  intros H. unfold get_stats.
  destruct db as [|r db]; [contradiction|]. reflexivity.
Qed.

Lemma top_ranking_holds db : top_ranking db (top_senders db).
Proof.
  destruct (top_senders_spec db) as (H1 & H2 & H3 & H4 & Hten & H5 & H6).
  unfold top_ranking. split; [|split; [|split; [|split; [|split; [|split]]]]];
    try assumption.
  - intros s c H. destruct (H1 s c H) as [Hs ->]. split; [assumption|].
    exists (List.length (filter (cond_from s) db)).
    split; [|reflexivity]. now apply count_from_spec.
  - intros l Hl Hsend. now rewrite Hten, (senders_length db l).
  - intros s n Hs Hn Hout s' c' Hin. apply count_from_spec in Hn.
    rewrite <- Hn. apply (H5 s Hs) with s'; [now rewrite Hn | exact Hin].
  - intros l Hl Hsend Hlen s n Hs Hn. apply count_from_spec in Hn.
    rewrite <- Hn. apply H6; [|assumption].
    now rewrite (senders_length db l).
Qed.

Lemma partition_length (f g : Row -> bool) (db : table) :
  (forall r, In r db -> f r = true \/ g r = true) ->
  (forall r, f r = true -> g r = true -> False) ->
  List.length db
  = (List.length (filter f db) + List.length (filter g db))%nat.
Proof.
  intros Hc Hd. induction db as [|r db IH]; simpl; [reflexivity|].
  rewrite IH by (intros; apply Hc; now right).
  destruct (f r) eqn:F, (g r) eqn:G; simpl; try lia.
  - exfalso. eauto.
  - destruct (Hc r (or_introl eq_refl)); congruence.
Qed.

Lemma count_positive db s n :
  count_of (sent_by s) db (S n) -> exists r, In r db /\ sent_by s r.
Proof.
  intros H. remember (S n) as k eqn:E. revert n E.
  induction H as [|r db k Hr Hc IH | r db k Hr Hc IH]; intros n E.
  - discriminate.
  - exists r. split; [now left | assumption].
  - destruct (IH n E) as [x [Hx Hs]]. exists x. split; [now right | auto].
Qed.

(** Two senders, one with two messages and one with one. *)
Lemma two_senders db A B :
  A <> B ->
  count_of (sent_by A) db 2 -> count_of (sent_by B) db 1 ->
  (forall r, In r db -> sent_by A r \/ sent_by B r) ->
  get_stats db
  = mkStats 3 2 [(A, 2); (B, 1)]
      (Sql.min_text (map ts db)) (Sql.max_text (map ts db)).
Proof.
  intros Hab HA HB Hall.
  assert (HinA := count_positive _ _ _ HA).
  assert (HinB := count_positive _ _ _ HB).
  assert (Hne : db <> []).
  { destruct HinA as [r [Hr _]]. intros ->. contradiction. }
  assert (Hlen : List.length db = 3%nat).
  { rewrite (partition_length (cond_from A) (cond_from B)).
    - apply count_from_spec in HA, HB. unfold count_from in HA, HB.
      apply Nat2Z.inj in HA, HB. now rewrite HA, HB.
    - intros r Hr. unfold cond_from.
      destruct (Hall r Hr) as [H | H]; [left | right];
        now apply String.eqb_eq.
    - unfold cond_from. intros r H1 H2.
      apply String.eqb_eq in H1, H2. congruence. }
  assert (Hsend : forall s, In s [A; B] <-> exists r, In r db /\ sent_by s r).
  { intro s. simpl. split.
    - intros [<- | [<- | []]]; assumption.
    - intros [r [Hr Hs]]. unfold sent_by in *.
      destruct (Hall r Hr) as [H | H]; unfold sent_by in H; subst; auto. }
  assert (Hnd : NoDup [A; B]).
  { constructor; [simpl; intuition congruence|].
    constructor; [simpl; tauto | constructor]. }
  assert (Hcount : List.length (senders db) = 2%nat)
    by now rewrite (senders_length db [A; B]).
  rewrite get_stats_nonempty by assumption.
  rewrite Hlen, Hcount. simpl Z.of_nat. f_equal.
  destruct (top_ranking_holds db) as (H1 & H2 & H3 & H4 & _ & H5 & H6).
  assert (Ha : In (A, 2) (top_senders db)).
  { apply (H6 [A; B] Hnd Hsend) with (n := 2%nat);
      [simpl; lia | assumption | assumption]. }
  assert (Hb : In (B, 1) (top_senders db)).
  { apply (H6 [A; B] Hnd Hsend) with (n := 1%nat);
      [simpl; lia | assumption | assumption]. }
  assert (Hk : (List.length (map fst (top_senders db)) <= 2)%nat).
  { change 2%nat with (List.length [A; B]).
    apply NoDup_incl_length; [assumption|].
    intros s Hs. apply in_map_iff in Hs. destruct Hs as [[s' c] [<- Hs]].
    apply Hsend. simpl. now destruct (H1 s' c Hs). }
  rewrite length_map in Hk.
  destruct (top_senders db) as [|x [|y [|z t]]]; simpl in Hk; try lia.
  - contradiction.
  - destruct Ha as [-> | []]. destruct Hb as [E | []].
    injection E as E1 E2. congruence.
  - destruct Ha as [-> | [-> | []]]; destruct Hb as [E | [E | []]];
      try (injection E as E1 E2; congruence); subst.
    + reflexivity.
    + inversion H2 as [|? ? _ Hx]; subst.
      inversion Hx as [|? ? Hc _]; subst.
      unfold count_ge in Hc. simpl in Hc. lia.
Qed.

(** C7: on the empty table the statistics are all zero, empty and null.
    On a table with rows, [total_messages] is the number of rows,
    [senders_count] the number of distinct senders, and
    [messages_per_sender] the senders with their row counts, largest count
    first: all of them when there are at most ten, and otherwise exactly
    ten, no sender left out with a larger count than one listed.  With two
    rows from [A], one from [B] and no other row, the result counts 3
    messages and 2 senders and lists [A] with 2 before [B] with 1. *)
Theorem C7_stats_aggregation :
  get_stats [] = mkStats 0 0 [] None None
  /\ (forall r db',
        let db := r :: db' in
        total_messages (get_stats db) = Z.of_nat (List.length db)
        /\ (forall l, NoDup l ->
              (forall s, In s l <-> exists x, In x db /\ sent_by s x) ->
              senders_count (get_stats db) = Z.of_nat (List.length l))
        /\ top_ranking db (messages_per_sender (get_stats db))
        /\ Z.of_nat (List.length (messages_per_sender (get_stats db)))
           = Z.min 10 (senders_count (get_stats db)))
  /\ (forall db A B,
        A <> B ->
        count_of (sent_by A) db 2 -> count_of (sent_by B) db 1 ->
        (forall r, In r db -> sent_by A r \/ sent_by B r) ->
        total_messages (get_stats db) = 3
        /\ senders_count (get_stats db) = 2
        /\ messages_per_sender (get_stats db) = [(A, 2); (B, 1)]).
Proof.
  split; [reflexivity|]. split.
  - intros r db' db.
    assert (Hne : db <> []) by discriminate.
    rewrite (get_stats_nonempty db Hne). simpl.
    split; [reflexivity|]. split; [|split].
    + intros l Hl Hs. f_equal. now apply senders_length.
    + apply top_ranking_holds.
    + destruct (top_senders_spec db) as (_ & _ & _ & _ & Hten & _).
      cbv zeta in Hten. rewrite Hten. lia.
  - intros db A B Hab HA HB Hall.
    rewrite (two_senders db A B Hab HA HB Hall). simpl. auto.
Qed.

End StatsTheorem.

(* ------------------------------------------------------------------ *)
(** ** The text search *)

Section Like.

Lemma chars_of_chars l : Text.chars (Text.of_chars l) = l.
Proof. apply list_ascii_of_string_of_list_ascii. Qed.

Lemma of_chars_chars s : Text.of_chars (Text.chars s) = s.
Proof. apply string_of_list_ascii_of_string. Qed.

Lemma chars_app s t :
  Text.chars (s ++ t) = (Text.chars s ++ Text.chars t)%list.
Proof.
  induction s as [|a s IH]; simpl; [reflexivity|].
  unfold Text.chars in *. simpl. now rewrite IH.
Qed.

Lemma of_chars_app l k :
  Text.of_chars (l ++ k)%list = Text.of_chars l ++ Text.of_chars k.
Proof.
  induction l as [|a l IH]; simpl; [reflexivity|].
  unfold Text.of_chars in *. simpl. now rewrite IH.
Qed.

Lemma chars_lower s :
  Text.chars (Text.lower s) = map Text.lower_char (Text.chars s).
Proof. unfold Text.lower. apply chars_of_chars. Qed.

Lemma chr_code z : 0 <= z < 256 -> Text.code (Text.chr z) = z.
Proof.
  intros H. unfold Text.code, Text.chr.
  rewrite N_ascii_embedding by lia. lia.
Qed.

Lemma lower_char_code c :
  Text.code (Text.lower_char c)
  = if (65 <=? Text.code c) && (Text.code c <=? 90)
    then Text.code c + 32 else Text.code c.
Proof.
  unfold Text.lower_char.
  destruct ((65 <=? Text.code c) && (Text.code c <=? 90)) eqn:E;
    [|reflexivity].
  apply andb_true_iff in E. destruct E as [E1 E2].
  apply Z.leb_le in E1, E2. apply chr_code. lia.
Qed.

Lemma lower_char_idem c :
  Text.lower_char (Text.lower_char c) = Text.lower_char c.
Proof.
  apply code_inj. rewrite (lower_char_code (Text.lower_char c)).
  rewrite lower_char_code.
  destruct ((65 <=? Text.code c) && (Text.code c <=? 90)) eqn:E.
  - apply andb_true_iff in E. destruct E as [E1 E2].
    apply Z.leb_le in E1, E2.
    destruct (65 <=? Text.code c + 32) eqn:A; simpl; [|reflexivity].
    destruct (Text.code c + 32 <=? 90) eqn:B; [|reflexivity].
    apply Z.leb_le in B. lia.
  - now rewrite E.
Qed.

(** Case folding neither makes nor removes a character that is no
    letter. *)
Lemma lower_char_other c k :
  Text.code k < 65 \/ 90 < Text.code k < 97 ->
  (Text.lower_char c =? k)%char = (c =? k)%char.
Proof.
  intros Hk.
  destruct (Ascii.eqb_spec (Text.lower_char c) k) as [E | N];
    destruct (Ascii.eqb_spec c k) as [E' | N']; try reflexivity.
  - exfalso. apply N'. subst k. pose proof (lower_char_code c) as L.
    destruct ((65 <=? Text.code c) && (Text.code c <=? 90)) eqn:B.
    + apply andb_true_iff in B. destruct B as [B1 B2].
      apply Z.leb_le in B1, B2. lia.
    + now apply code_inj.
  - exfalso. apply N. subst k. unfold Text.lower_char.
    destruct ((65 <=? Text.code c) && (Text.code c <=? 90)) eqn:B;
      [|reflexivity].
    apply andb_true_iff in B. destruct B as [B1 B2].
    apply Z.leb_le in B1, B2. lia.
Qed.

(** Case folding neither makes nor removes a wildcard. *)
Lemma lower_char_wildcard c :
  ((Text.lower_char c =? "%")%char = (c =? "%")%char)
  /\ ((Text.lower_char c =? "_")%char = (c =? "_")%char).
Proof.
  split; apply lower_char_other; [left | right]; vm_compute;
    intuition congruence.
Qed.

Lemma lower_char_zero c :
  (Text.lower_char c =? Ascii.zero)%char = (c =? Ascii.zero)%char.
Proof. apply lower_char_other. left. vm_compute. reflexivity. Qed.

(** Case folding commutes with reading a text up to its first NUL. *)
Lemma c_string_lower l :
  Sql.c_string (map Text.lower_char l)
  = map Text.lower_char (Sql.c_string l).
Proof.
  induction l as [|c l IH]; simpl; [reflexivity|].
  rewrite lower_char_zero. destruct (c =? Ascii.zero)%char; simpl; congruence.
Qed.

Lemma c_string_nul_free l : ~ In Ascii.zero l -> Sql.c_string l = l.
Proof.
  induction l as [|c l IH]; simpl; intros H; [reflexivity|].
  destruct (Ascii.eqb_spec c Ascii.zero) as [E | N]; [tauto|].
  f_equal. apply IH. tauto.
Qed.

Lemma lower_read_by_like t :
  Text.chars (Text.lower (read_by_like t))
  = Sql.c_string (Text.chars (Text.lower t)).
Proof.
  unfold read_by_like.
  now rewrite !chars_lower, chars_of_chars, c_string_lower.
Qed.

Lemma like_any r s :
  Sql.like_chars ("%"%char :: r) s
  = Sql.like_chars r s
    || match s with
       | [] => false
       | _ :: s' => Sql.like_chars ("%"%char :: r) s'
       end.
Proof. destruct s; reflexivity. Qed.

Lemma like_one c r s :
  (c =? "%")%char = false ->
  Sql.like_chars (c :: r) s
  = match s with
    | [] => false
    | d :: s' =>
        ((c =? "_")%char || Sql.char_like c d) && Sql.like_chars r s'
    end.
Proof. intros H. simpl. now rewrite H. Qed.

Lemma like_any_spec r s :
  Sql.like_chars ("%"%char :: r) s = true
  <-> exists pre post, s = (pre ++ post)%list
                       /\ Sql.like_chars r post = true.
Proof.
  induction s as [|d s IH]; rewrite like_any.
  - rewrite orb_false_r. split.
    + intros H. exists [], []. auto.
    + intros (pre & post & E & H).
      symmetry in E. apply app_eq_nil in E. destruct E as [_ ->]. exact H.
  - rewrite orb_true_iff, IH. split.
    + intros [H | (pre & post & -> & H)].
      * exists [], (d :: s). auto.
      * exists (d :: pre), post. auto.
    + intros (pre & post & E & H). destruct pre as [|x pre].
      * left. simpl in E. now subst post.
      * right. injection E as -> ->. eauto.
Qed.

Lemma like_any_only s : Sql.like_chars ["%"%char] s = true.
Proof.
  apply like_any_spec. exists s, []. split; [now rewrite app_nil_r|].
  reflexivity.
Qed.

(** A run of literal characters matches a prefix equal to it up to the
    case of ASCII letters. *)
Lemma like_literal_run p r s :
  Forall literal p ->
  Sql.like_chars (p ++ r) s = true
  <-> exists m post, s = (m ++ post)%list
        /\ Forall2 (fun c d => Sql.char_like c d = true) p m
        /\ Sql.like_chars r post = true.
Proof.
  intros Hp. revert s. induction Hp as [|c p [Hc1 Hc2] Hp IH]; intros s.
  - simpl. split.
    + intros H. exists [], s. auto.
    + intros (m & post & -> & F & H). inversion F. exact H.
  - simpl app. rewrite like_one by now apply Ascii.eqb_neq.
    destruct s as [|d s].
    + split; [discriminate|].
      intros (m & post & E & F & _). inversion F; subst. discriminate.
    + replace (c =? "_")%char with false
        by (symmetry; now apply Ascii.eqb_neq).
      simpl orb. rewrite andb_true_iff, IH. split.
      * intros (Hd & m & post & -> & F & H).
        exists (d :: m), post. auto.
      * intros (m & post & E & F & H). inversion F; subst.
        injection E as -> ->. split; [assumption|]. eauto.
Qed.

Lemma Forall2_folded_eq p m :
  Forall2 (fun c d => Sql.char_like c d = true)
    (map Text.lower_char p) (map Text.lower_char m) ->
  map Text.lower_char p = map Text.lower_char m.
Proof.
  revert m. induction p as [|c p IH]; intros [|d m] F; inversion F; subst.
  - reflexivity.
  - simpl. f_equal; [|auto].
    unfold Sql.char_like in *. rewrite !lower_char_idem in *.
    now apply Ascii.eqb_eq.
Qed.

Lemma map_eq_app_inv {A B : Type} (f : A -> B) l k1 k2 :
  map f l = (k1 ++ k2)%list ->
  exists l1 l2, l = (l1 ++ l2)%list /\ map f l1 = k1 /\ map f l2 = k2.
Proof.
  revert l. induction k1 as [|b k1 IH]; intros l E.
  - exists [], l. auto.
  - destruct l as [|a l]; [discriminate|]. simpl in E.
    injection E as <- E. destruct (IH l E) as (l1 & l2 & -> & <- & <-).
    exists (a :: l1), l2. auto.
Qed.

(** The pattern [%q%] for a [q] without wildcard matches exactly the
    character sequences in which [q] occurs, both folded to lower case. *)
Lemma like_chars_contains q t :
  Forall literal (Text.chars q) ->
  Sql.like_chars (Text.chars (Text.lower ("%" ++ q ++ "%")))
    (Text.chars (Text.lower t)) = true
  <-> occurs_in (Text.lower q) (Text.lower t).
Proof.
  intros Hq. rewrite !chars_lower, !chars_app.
  change (Text.chars "%") with ["%"%char].
  rewrite !map_app. change (map Text.lower_char ["%"%char]) with ["%"%char].
  simpl app. rewrite like_any_spec.
  assert (Hl : Forall literal (map Text.lower_char (Text.chars q))).
  { rewrite Forall_forall in *. intros c Hc.
    apply in_map_iff in Hc. destruct Hc as [x [<- Hx]].
    destruct (Hq x Hx) as [N1 N2].
    destruct (lower_char_wildcard x) as [W1 W2].
    split; apply Ascii.eqb_neq;
      [rewrite W1 | rewrite W2]; now apply Ascii.eqb_neq. }
  split.
  - intros (pre & post & E & H).
    apply (like_literal_run _ _ _ Hl) in H.
    destruct H as (m & rest & -> & F & _).
    destruct (map_eq_app_inv _ _ _ _ E) as (l1 & l2 & _ & _ & E2).
    destruct (map_eq_app_inv _ _ _ _ E2) as (l3 & l4 & _ & E3 & _).
    rewrite <- E3 in F. apply Forall2_folded_eq in F.
    exists (Text.of_chars pre), (Text.of_chars rest).
    rewrite <- (of_chars_chars (Text.lower t)), chars_lower, E.
    rewrite <- E3, <- F.
    rewrite !of_chars_app. reflexivity.
  - intros (pre & post & E).
    exists (Text.chars pre), (Text.chars (Text.lower q ++ post)).
    split.
    + rewrite <- chars_lower, E. now rewrite chars_app.
    + rewrite chars_app, chars_lower.
      apply (like_literal_run _ _ _ Hl).
      exists (map Text.lower_char (Text.chars q)), (Text.chars post).
      split; [reflexivity|]. split; [|apply like_any_only].
      clear. induction (Text.chars q) as [|c l IH]; simpl; constructor.
      * unfold Sql.char_like. apply Ascii.eqb_refl.
      * exact IH.
Qed.

(** The same of LIKE, which reads a text up to its first NUL character, for a
    [q] that holds none. *)
Lemma like_contains q t :
  Forall literal (Text.chars q) -> nul_free q ->
  Sql.like (Text.lower t) (Text.lower ("%" ++ q ++ "%")) = true
  <-> occurs_in (Text.lower q) (Text.lower (read_by_like t)).
Proof.
  intros Hq Hz. rewrite <- (like_chars_contains q (read_by_like t) Hq).
  unfold Sql.like. rewrite lower_read_by_like.
  rewrite (c_string_nul_free (Text.chars (Text.lower ("%" ++ q ++ "%"))));
    [reflexivity|].
  rewrite chars_lower, !chars_app, in_map_iff. intros (c & E & Hc).
  assert (Z0 : c = Ascii.zero).
  { apply Ascii.eqb_eq. rewrite <- lower_char_zero, E.
    apply Ascii.eqb_refl. }
  subst c. apply in_app_or in Hc. destruct Hc as [Hc | Hc].
  - simpl in Hc. destruct Hc as [Hc | []]. discriminate.
  - apply in_app_or in Hc. destruct Hc as [Hc | Hc]; [now apply Hz|].
    simpl in Hc. destruct Hc as [Hc | []]. discriminate.
Qed.

End Like.

(* ------------------------------------------------------------------ *)
(** ** The signature *)

Section Digest.

Lemma round_length st kw :
  List.length (Sha256.round st kw) = List.length st.
Proof.
  unfold Sha256.round.
  do 9 (destruct st as [|? st]; [reflexivity|]). reflexivity.
Qed.

Lemma rounds_length kws st :
  List.length (fold_left Sha256.round kws st) = List.length st.
Proof.
  revert st. induction kws as [|kw kws IH]; intros st; simpl;
    [reflexivity|].
  now rewrite IH, round_length.
Qed.

Lemma compress_length h block :
  List.length (Sha256.compress h block) = List.length h.
Proof.
  unfold Sha256.compress.
  rewrite length_map, length_combine, rounds_length. apply Nat.min_id.
Qed.

Lemma blocks_length fuel h bs :
  List.length (Sha256.blocks fuel h bs) = List.length h.
Proof.
  revert h bs. induction fuel as [|fuel IH]; intros h bs; simpl;
    [reflexivity|].
  destruct bs; [reflexivity|]. now rewrite IH, compress_length.
Qed.

Lemma be_bytes_length n x : List.length (Sha256.be_bytes n x) = n.
Proof.
  unfold Sha256.be_bytes. now rewrite length_map, length_rev, length_seq.
Qed.

Lemma flat_map_length_const {A B : Type} (f : A -> list B) k l :
  (forall a, List.length (f a) = k) ->
  List.length (flat_map f l) = (k * List.length l)%nat.
Proof.
  intros H. induction l as [|a l IH]; simpl; [lia|].
  rewrite length_app, H, IH. lia.
Qed.

Lemma digest_length msg : List.length (Sha256.digest msg) = 32%nat.
Proof.
  unfold Sha256.digest, Sha256.digest_words.
  rewrite (flat_map_length_const _ 4) by (intro; apply be_bytes_length).
  now rewrite blocks_length.
Qed.

Lemma of_chars_length l : String.length (Text.of_chars l) = List.length l.
Proof.
  induction l as [|a l IH]; simpl; [reflexivity|].
  unfold Text.of_chars in *. simpl. now rewrite IH.
Qed.

(** The expected signature is 64 characters long. *)
Lemma hexdigest_length key msg :
  String.length (Hmac.hexdigest key msg) = 64%nat.
Proof.
  unfold Hmac.hexdigest, Hmac.hexlify, Hmac.hmac_sha256.
  rewrite of_chars_length.
  rewrite (flat_map_length_const _ 2) by reflexivity.
  now rewrite digest_length.
Qed.

Lemma hex_digit_In n : In (Hmac.hex_digit n) Hmac.hex_digits.
Proof.
  unfold Hmac.hex_digit.
  destruct (nth_in_or_default (Z.to_nat n) Hmac.hex_digits "0"%char)
    as [H | ->]; [exact H | now left].
Qed.

(** It is made of the characters [0-9a-f], so it is ASCII. *)
Lemma hexdigest_chars key msg :
  Forall (fun c => In c Hmac.hex_digits)
    (Text.chars (Hmac.hexdigest key msg)).
Proof.
  unfold Hmac.hexdigest, Hmac.hexlify. rewrite chars_of_chars.
  apply Forall_flat_map, Forall_forall. intros b _.
  unfold Hmac.hex_byte.
  constructor; [apply hex_digit_In|].
  constructor; [apply hex_digit_In | constructor].
Qed.

Lemma hexdigest_isascii key msg :
  Text.isascii (Hmac.hexdigest key msg) = true.
Proof.
  unfold Text.isascii. apply forallb_forall. intros c Hc.
  pose proof (hexdigest_chars key msg) as F.
  rewrite Forall_forall in F. specialize (F c Hc).
  simpl in F.
  repeat (destruct F as [<- | F]; [reflexivity|]). contradiction.
Qed.

Lemma hexdigest_not_empty key msg : Hmac.hexdigest key msg <> "".
Proof.
  intros E. pose proof (hexdigest_length key msg) as L.
  rewrite E in L. discriminate.
Qed.

Lemma verify_signature_spec secret body signature :
  let expected :=
    Hmac.hexdigest (Text.encode secret) (Text.bytes body) in
  Main.verify_signature secret body signature
  = if Text.isascii signature
    then Some (expected =? signature)%string else None.
Proof.
  unfold Main.verify_signature, Hmac.compare_digest.
  now rewrite hexdigest_isascii.
Qed.

End Digest.

(* ------------------------------------------------------------------ *)
(** ** The repository insert *)

Section Insert.

Import Storage.

Lemma has_id_spec db id :
  has_id db id = true <-> In id (map message_id db).
Proof.
  unfold has_id. rewrite existsb_exists, in_map_iff.
  split; intros [r [H1 H2]]; exists r.
  - apply String.eqb_eq in H2. auto.
  - split; [assumption | now apply String.eqb_eq].
Qed.

Lemma insert_message_duplicate now db id from to t txt :
  has_id db id = true ->
  insert_message now db id from to t txt = (false, db).
Proof. intros H. unfold insert_message. now rewrite H. Qed.

Lemma insert_message_new now db id from to t txt :
  has_id db id = false ->
  insert_message now db id from to t txt
  = (true, (db ++ [mkRow id from to t txt (now ++ "Z")])%list).
Proof. intros H. unfold insert_message. now rewrite H. Qed.





End Insert.

(* ------------------------------------------------------------------ *)
(** ** The webhook handler *)

Section Webhook.

Import Main.

Variable fromisoformat : string -> bool.

Lemma expected_signature_truthy secret body :
  Text.truthy (Some (expected_signature secret body)) = true.
Proof. apply truthy_Some, hexdigest_not_empty. Qed.

Lemma verify_signature_expected secret body :
  verify_signature secret body (expected_signature secret body)
  = Some true.
Proof.
  rewrite verify_signature_spec. unfold expected_signature.
  now rewrite hexdigest_isascii, String.eqb_refl.
Qed.

(** A request without a usable signature, or with a wrong one. *)
Lemma webhook_unsigned secret now w body loaded :
  webhook fromisoformat secret now w None body loaded = unauthorized w
  /\ webhook fromisoformat secret now w (Some "") body loaded
     = unauthorized w.
Proof. split; reflexivity. Qed.

Lemma webhook_wrong_signature secret now w s body loaded :
  Text.isascii s = true -> s <> expected_signature secret body ->
  webhook fromisoformat secret now w (Some s) body loaded = unauthorized w.
Proof.
  intros A N. unfold webhook.
  destruct (Text.truthy (Some s)); [|reflexivity]. simpl negb. cbv iota.
  rewrite verify_signature_spec, A.
  fold (expected_signature secret body).
  destruct (String.eqb_spec (expected_signature secret body) s);
    [congruence | reflexivity].
Qed.

(** A correctly signed request goes on to parsing and validation. *)
Lemma webhook_signed secret now w body loaded :
  webhook fromisoformat secret now w
    (Some (expected_signature secret body)) body loaded
  = match loaded with
    | DecodeError => unprocessable w
    | RecursionError => (UnhandledError, w)
    | Loaded (JObject body_dict) =>
        match validate fromisoformat body_dict with
        | None => unprocessable w
        | Some message =>
            let (inserted, w') := storage_insert_message now message w in
            (WebhookResponse "ok",
             record_webhook_request
               (if inserted then "created" else "duplicate") w')
        end
    | Loaded _ => (UnhandledError, w)
    end.
Proof.
  unfold webhook.
  rewrite expected_signature_truthy, verify_signature_expected.
  reflexivity.
Qed.

Lemma storage_insert_message_unfold now m w :
  storage_insert_message now m w
  = (fst (Storage.insert_message now (db w) (message_id m) (from_msisdn m)
            (to_msisdn m) (ts m) (text m)),
     mkWorld
       (snd (Storage.insert_message now (db w) (message_id m)
               (from_msisdn m) (to_msisdn m) (ts m) (text m)))
       (calls w ++ [InsertMessage (message_id m) (from_msisdn m)
                      (to_msisdn m) (ts m) (text m)])%list
       (webhook_requests w)).
Proof.
  unfold storage_insert_message.
  now destruct (Storage.insert_message now (db w) (message_id m)
                  (from_msisdn m) (to_msisdn m) (ts m) (text m)).
Qed.



Lemma status_code_signed secret now w body loaded :
  status_code
    (fst (webhook fromisoformat secret now w
            (Some (expected_signature secret body)) body loaded)) <> 401.
Proof.
  rewrite webhook_signed.
  destruct loaded as [| |[| | | | |d]]; simpl; try discriminate.
  destruct (validate fromisoformat d); simpl; [|discriminate].
  rewrite storage_insert_message_unfold. simpl. discriminate.
Qed.

(** C2, as the code has it: when the signature header is absent, or holds
    ASCII characters only, the request is answered 401 exactly when the
    header is not the lower-case hexadecimal HMAC-SHA256 of the body under
    the secret, compared character by character; such a request is
    counted as [invalid_signature] and neither changes the table nor calls
    the repository, whatever the body is and decodes to. *)
Theorem C2_signature_gate :
  forall secret now w x_signature body loaded,
    (forall s, x_signature = Some s -> Text.isascii s = true) ->
    let expected := expected_signature secret body in
    let out :=
      webhook fromisoformat secret now w x_signature body loaded in
    (status_code (fst out) = 401 <-> x_signature <> Some expected)
    /\ (x_signature <> Some expected ->
        fst out = HTTPException 401
        /\ webhook_requests (snd out)
           = (webhook_requests w ++ ["invalid_signature"])%list
        /\ db (snd out) = db w
        /\ calls (snd out) = calls w).
Proof.
  intros secret now w x_signature body loaded A expected out.
  assert (R : x_signature <> Some expected -> out = unauthorized w).
  { intros N. subst out. destruct x_signature as [s|].
    - apply webhook_wrong_signature; [now apply A|].
      intros E. apply N. now rewrite E.
    - apply webhook_unsigned. }
  split.
  - split.
    + intros H N. subst out. rewrite N in H.
      now apply status_code_signed in H.
    + intros N. now rewrite (R N).
  - intros N. rewrite (R N). simpl. auto.
Qed.

(** A payload the validator refuses is answered 422, counted as
    [validation_error], and reaches neither the table nor the
    repository. *)
Lemma webhook_invalid secret now w body d :
  validate fromisoformat d = None ->
  webhook fromisoformat secret now w
    (Some (expected_signature secret body)) body (Loaded (JObject d))
  = unprocessable w.
Proof. intros V. now rewrite webhook_signed, V. Qed.

Lemma validate_msisdn_spec v :
  validate_msisdn v = if plus_isdigit v then Some v else None.
Proof.
  unfold validate_msisdn, plus_isdigit.
  destruct (Text.startswith_char "+" v); simpl; [|reflexivity].
  now destruct (Text.isdigit (Text.tail v)).
Qed.

Lemma bind_Some {A B : Type} (a : A) (f : A -> option B) :
  bind (Some a) f = f a.
Proof. reflexivity. Qed.

Ltac skip_fields :=
  repeat first
    [ reflexivity
    | match goal with
      | |- bind ?x _ = None =>
          destruct x; [rewrite bind_Some; cbv beta | reflexivity]
      end ].

(** The part of the validation gate that the validator does enforce. *)
Lemma validation_gate d :
  str_field d "message_id" = Some ""
  \/ (exists v, str_field d "from_msisdn" = Some v
                /\ plus_isdigit v = false)
  \/ (exists v, str_field d "to_msisdn" = Some v
                /\ plus_isdigit v = false)
  \/ (exists v, str_field d "ts" = Some v
                /\ (Text.endswith_char "Z" v = false
                    \/ fromisoformat (Text.replace_char "Z" "+00:00" v)
                       = false))
  \/ (exists v, get "text" d = Some (JString v)
                /\ (4096 < String.length v)%nat) ->
  validate fromisoformat d = None.
Proof.
  unfold validate.
  intros [H | [(v & H & B) | [(v & H & B) | [(v & H & B) | (v & H & B)]]]].
  - now rewrite H.
  - rewrite H, bind_Some, validate_msisdn_spec, B. skip_fields.
  - rewrite H, bind_Some, validate_msisdn_spec, B. skip_fields.
  - assert (T : validate_timestamp fromisoformat v = None).
    { unfold validate_timestamp. destruct B as [B | B]; rewrite B;
        [reflexivity|].
      now destruct (Text.endswith_char "Z" v). }
    rewrite H, bind_Some, T. skip_fields.
  - unfold optional_str_field. rewrite H, bind_Some. cbv beta iota.
    unfold max_length.
    replace (String.length v <=? 4096)%nat with false
      by (symmetry; apply Nat.leb_gt; exact B).
    skip_fields.
Qed.

End Webhook.

(* ------------------------------------------------------------------ *)
(** ** The listing endpoint *)

Section ListingEndpoint.

Import Main.

Lemma int64_spec z :
  Sql.int64 z = true <-> - 2 ^ 63 <= z < 2 ^ 63.
Proof.
  unfold Sql.int64. rewrite andb_true_iff, !Z.leb_le.
  change (2 ^ 63) with 9223372036854775808. lia.
Qed.

Lemma utf8_char_lower c :
  List.length (Text.utf8_char (Text.lower_char c))
  = List.length (Text.utf8_char c).
Proof.
  unfold Text.utf8_char. rewrite lower_char_code.
  destruct ((65 <=? Text.code c) && (Text.code c <=? 90)) eqn:E;
    [|reflexivity].
  apply andb_true_iff in E. destruct E as [E1 E2].
  apply Z.leb_le in E1, E2.
  destruct (Z.ltb_spec (Text.code c + 32) 128),
    (Z.ltb_spec (Text.code c) 128); try reflexivity; lia.
Qed.

Lemma encode_app a b :
  Text.encode (a ++ b) = (Text.encode a ++ Text.encode b)%list.
Proof. unfold Text.encode. now rewrite chars_app, flat_map_app. Qed.

Lemma encode_lower_length s :
  List.length (Text.encode (Text.lower s)) = List.length (Text.encode s).
Proof.
  unfold Text.encode. rewrite chars_lower.
  induction (Text.chars s) as [|c l IH]; simpl; [reflexivity|].
  now rewrite !length_app, utf8_char_lower, IH.
Qed.

(** The length of the pattern that the search term [p] gives. *)
Lemma pattern_length p :
  Z.of_nat (List.length (Text.encode (Text.lower ("%" ++ p ++ "%"))))
  = utf8_length p + 2.
Proof.
  rewrite encode_lower_length, !encode_app, !length_app. unfold utf8_length.
  change (List.length (Text.encode "%")) with 1%nat. lia.
Qed.

Lemma like_too_complex_spec p :
  Sql.like_too_complex (Text.lower ("%" ++ p ++ "%")) = false
  <-> utf8_length p + 2 <= Sql.max_like_pattern_length.
Proof.
  unfold Sql.like_too_complex. rewrite pattern_length.
  now rewrite Z.ltb_ge.
Qed.

(** A call of the listing returns when [limit] and [offset] are 64-bit
    integers and the pattern is within the limit of LIKE. *)
Lemma get_messages_call_returns db limit offset from since q :
  - 2 ^ 63 <= limit < 2 ^ 63 -> - 2 ^ 63 <= offset < 2 ^ 63 ->
  searchable q ->
  Storage.get_messages_call db limit offset from since q
  = Storage.Returned (Storage.get_messages db limit offset from since q).
Proof.
  intros Hl Ho Hq. unfold Storage.get_messages_call.
  apply int64_spec in Hl, Ho. rewrite Hl, Ho. cbn [andb negb].
  destruct q as [p|]; [|reflexivity].
  destruct (Text.truthy (Some p)) eqn:T; [|reflexivity].
  apply truthy_Some in T.
  rewrite (proj2 (like_too_complex_spec p) (Hq p eq_refl T)).
  reflexivity.
Qed.

(** What a call of the listing returns is the page and the total, and its
    [limit] and [offset] are 64-bit integers. *)
Lemma get_messages_call_returned db limit offset from since q r :
  Storage.get_messages_call db limit offset from since q
  = Storage.Returned r ->
  r = Storage.get_messages db limit offset from since q
  /\ - 2 ^ 63 <= limit < 2 ^ 63 /\ - 2 ^ 63 <= offset < 2 ^ 63.
Proof.
  unfold Storage.get_messages_call.
  destruct (match q with Some p => _ | None => false end); [discriminate|].
  destruct (Sql.int64 limit) eqn:Hl; [|discriminate].
  destruct (Sql.int64 offset) eqn:Ho; [|discriminate].
  cbn [andb negb]. intros [= <-].
  apply int64_spec in Hl, Ho. auto.
Qed.

(** A call of the listing with a [limit] or an [offset] beyond 64 bits
    raises. *)
Lemma get_messages_call_beyond db limit offset from since q :
  ~ (- 2 ^ 63 <= limit < 2 ^ 63 /\ - 2 ^ 63 <= offset < 2 ^ 63) ->
  exists e,
    Storage.get_messages_call db limit offset from since q
    = Storage.Raised e.
Proof.
  intros H.
  destruct (Storage.get_messages_call db limit offset from since q)
    as [r | e] eqn:E; [|now exists e].
  apply get_messages_call_returned in E. tauto.
Qed.

(** C8: GET /messages answers a validation error, without calling the
    repository, when [limit] is below 1 or above 100 or [offset] is below
    0; an omitted [limit] is 50 and an omitted [offset] is 0; an accepted
    request calls the repository once, and when the call returns it is
    answered with the page and total of the repository and with the
    [limit] and [offset] it was given.  The call returns for an [offset]
    below 2^63 and a search pattern within the limit of LIKE; for an
    [offset] from 2^63 on it raises, and the request ends in an unhandled
    error. *)
Theorem C8_listing_checks_pagination :
  forall w from since q,
    (forall z offset, z < 1 \/ 100 < z ->
       get_messages w (Given z) offset from since q
       = (RequestValidationError, w))
    /\ (forall z limit, z < 0 ->
          get_messages w limit (Given z) from since q
          = (RequestValidationError, w))
    /\ status_code RequestValidationError = 422
    /\ (forall offset,
          get_messages w Omitted offset from since q
          = get_messages w (Given 50) offset from since q)
    /\ (forall limit,
          get_messages w limit Omitted from since q
          = get_messages w limit (Given 0) from since q)
    /\ (forall limit offset, 1 <= limit <= 100 -> 0 <= offset ->
          let called :=
            mkWorld (db w)
              (calls w ++ [GetMessages limit offset from since q])%list
              (webhook_requests w) in
          let page :=
            Storage.get_messages (db w) limit offset from since q in
          (forall data total,
              Storage.get_messages_call (db w) limit offset from since q
              = Storage.Returned (data, total) ->
              get_messages w (Given limit) (Given offset) from since q
              = (MessagesResponse data total limit offset, called)
              /\ (data, total) = page)
          /\ (forall e,
                Storage.get_messages_call (db w) limit offset from since q
                = Storage.Raised e ->
                get_messages w (Given limit) (Given offset) from since q
                = (UnhandledError, called))
          /\ (offset < 2 ^ 63 -> searchable q ->
              get_messages w (Given limit) (Given offset) from since q
              = (MessagesResponse (fst page) (snd page) limit offset,
                 called))
          /\ (2 ^ 63 <= offset ->
              get_messages w (Given limit) (Given offset) from since q
              = (UnhandledError, called))).
Proof.
  intros w from since q.
  split; [|split; [|split; [|split; [|split]]]].
  - intros z offset Hz. unfold get_messages, Query.
    replace ((1 <=? z) && (z <=? 100)) with false; [reflexivity|].
    symmetry. apply andb_false_iff.
    destruct Hz; [left; now apply Z.leb_gt | right; now apply Z.leb_gt].
  - intros z limit Hz. unfold get_messages.
    replace (Query 0 0 None (Given z)) with (@None Z).
    + now destruct (Query 50 1 (Some 100) limit).
    + unfold Query. replace (0 <=? z) with false; [reflexivity|].
      symmetry. now apply Z.leb_gt.
  - reflexivity.
  - reflexivity.
  - reflexivity.
  - intros limit offset Hl Ho called page.
    assert (U : get_messages w (Given limit) (Given offset) from since q
                = match
                    Storage.get_messages_call (db w) limit offset from
                      since q
                  with
                  | Storage.Returned (messages, total) =>
                      (MessagesResponse messages total limit offset, called)
                  | Storage.Raised _ => (UnhandledError, called)
                  end).
    { unfold get_messages, Query.
      replace ((1 <=? limit) && (limit <=? 100)) with true
        by (symmetry; apply andb_true_iff; split; apply Z.leb_le; lia).
      replace (0 <=? offset) with true by (symmetry; apply Z.leb_le; lia).
      reflexivity. }
    rewrite U. split; [|split; [|split]].
    + intros data total E. rewrite E. split; [reflexivity|].
      now apply get_messages_call_returned in E.
    + intros e E. now rewrite E.
    + intros Hb Hq.
      rewrite get_messages_call_returns; [|lia | lia | exact Hq].
      fold page. now destruct page.
    + intros Hb.
      destruct (get_messages_call_beyond (db w) limit offset from since q)
        as [e E]; [lia|].
      now rewrite E.
Qed.

End ListingEndpoint.

(* ------------------------------------------------------------------ *)
(** ** The text filter of the listing *)

Section TextFilter.

Import Storage.

Lemma cond_q_null q r : text r = None -> cond_q q r = false.
Proof. intros H. unfold cond_q. now rewrite H. Qed.

Lemma cond_q_contains q r :
  Forall literal (Text.chars q) -> nul_free q ->
  cond_q q r = true
  <-> exists t, text r = Some t
                /\ occurs_in (Text.lower q) (Text.lower (read_by_like t)).
Proof.
  intros Hq Hz. unfold cond_q. destruct (text r) as [t|].
  - rewrite (like_contains q t Hq Hz). split.
    + intros H. exists t. auto.
    + intros (t' & [= <-] & H). exact H.
  - split; [discriminate | intros (t & E & _); discriminate].
Qed.

Lemma listed_iff db from since q m :
  In m (fst (get_messages db (-1) 0 from since q))
  <-> exists r, In r db /\ satisfies from since q r /\ m = to_message r.
Proof.
  rewrite get_messages_unfold. simpl fst. rewrite limit_offset_all.
  rewrite in_map_iff. split.
  - intros (r & <- & H). apply order_by_In, filter_In in H.
    destruct H as [H1 H2]. apply where_clause_satisfies in H2. eauto.
  - intros (r & H1 & H2 & ->). exists r. split; [reflexivity|].
    apply order_by_In, filter_In. split; [assumption|].
    now apply where_clause_satisfies.
Qed.

(** What the [q] filter does for a search term [q] that is not empty and
    holds neither [%] nor [_] nor the NUL character: it keeps a row exactly
    when the row has a text and [q] occurs in the part of it that comes
    before the first NUL, both with their ASCII letters in lower case; this
    decides which stored messages the listing returns; and a row whose text
    is null passes the filter for no [q]. *)
Lemma q_filter_on_literal_terms :
  forall q,
    q <> "" -> Forall literal (Text.chars q) -> nul_free q ->
    (forall r,
        cond_q q r = true
        <-> exists t, text r = Some t
                      /\ occurs_in (Text.lower q)
                           (Text.lower (read_by_like t)))
    /\ (forall db m,
          In m (fst (get_messages db (-1) 0 None None (Some q)))
          <-> exists r t,
                In r db /\ m = to_message r /\ text r = Some t
                /\ occurs_in (Text.lower q) (Text.lower (read_by_like t)))
    /\ (forall q' r, text r = None -> cond_q q' r = false).
Proof.
  intros q Hne Hq Hz. split; [|split].
  - intro r. now apply cond_q_contains.
  - intros db m. rewrite listed_iff. split.
    + intros (r & Hin & (_ & _ & Hs) & ->).
      specialize (Hs q eq_refl Hne). cbv beta in Hs.
      apply (cond_q_contains q r Hq Hz) in Hs.
      destruct Hs as (t & Ht & Ho).
      exists r, t. auto.
    + intros (r & t & Hin & -> & Ht & Ho). exists r.
      split; [assumption|]. split; [|reflexivity].
      unfold satisfies, when_supplied.
      split; [discriminate|]. split; [discriminate|].
      intros p [= <-] _. apply (cond_q_contains q r Hq Hz). eauto.
  - intros q' r. apply cond_q_null.
Qed.

End TextFilter.

(* ------------------------------------------------------------------ *)
(** ** The service on the sample data *)

Section OnSamples.

Import Samples.

Example sha256_abc :
  Hmac.hexlify (Sha256.digest (Text.bytes "abc"))
  = "ba7816bf8f01cfea414140de5dae2223b00361a396177a9cb410ff61f20015ad".
Proof. vm_compute. reflexivity. Qed.

Example sha256_two_blocks :
  Hmac.hexlify (Sha256.digest (repeat 97 56))
  = "b35439a4ac6f0948b6d6f9e3c6af0f5f590ce20f1bde7090ef7970686ec6738a".
Proof. vm_compute. reflexivity. Qed.

Example hmac_rfc4231_case2 :
  Hmac.hexdigest (Text.bytes "Jefe")
    (Text.bytes "what do ya want for nothing?")
  = "5bdcc146bf60754e6a042426089575c75a003f089d2739839dec58b964ec3843".
Proof. vm_compute. reflexivity. Qed.

Example hmac_rfc4231_case6 :
  Hmac.hexdigest (repeat 0xaa 131)
    (Text.bytes "Test Using Larger Than Block-Size Key - Hash Key First")
  = "60e431591ee0b67f0d8a26aacbf5b77f8e0bc6213728c5140546040f0ee37f54".
Proof. vm_compute. reflexivity. Qed.

Example valid_message_signature :
  calculate_signature webhook_secret (dumps valid_message)
  = "aee4582428e3930bc9f28b6a8ddcc0e53ba968dfd3101ec88dfb1c2f928e650f".
Proof. vm_compute. reflexivity. Qed.

Example valid_message_validates :
  Main.validate fromisoformat (decoded valid_message)
  = Some valid_webhook_message.
Proof. vm_compute. reflexivity. Qed.

(** The tests post the sender and the recipient under the keys [from] and
    [to]; the class [WebhookMessage] has no field of these names, ignores
    them, and refuses the payload for its missing fields. *)
Example from_to_keys_refused :
  Main.validate fromisoformat
    (decoded [("message_id", "msg_123"); ("from", "+919876543210");
              ("to", "+919876543211"); ("ts", "2025-01-15T10:00:00Z");
              ("text", "Hello, world!")])
  = None.
Proof. vm_compute. reflexivity. Qed.

(** A signature with a character outside ASCII makes the comparison raise:
    the request ends in an unhandled error, not in a 401. *)
Example non_ascii_signature_unhandled :
  Main.webhook fromisoformat webhook_secret now empty_world
    (Some (String "233" "")) (dumps valid_message) (loads valid_message)
  = (Main.UnhandledError, empty_world).
Proof. vm_compute. reflexivity. Qed.


(** The claim of C2 read with a comparison that ignores case fails: the
    expected signature in upper case differs from it only by the case of
    its letters, and the request is answered 401. *)
Lemma C2_uppercase_signature_rejected :
  let body := dumps valid_message in
  let expected := expected_signature webhook_secret body in
  let signature := Text.upper expected in
  Text.lower signature = expected
  /\ signature <> expected
  /\ Main.webhook fromisoformat webhook_secret now empty_world
       (Some signature) body (loads valid_message)
     = (Main.HTTPException 401,
        Main.record_webhook_request "invalid_signature" empty_world).
Proof.
  vm_compute. split; [reflexivity|]. split; [discriminate | reflexivity].
Qed.

(** C2 on two requests: the valid message with its signature, and with a
    signature of the right length that is wrong. *)
Lemma C2_signed_and_missigned :
  let body := dumps valid_message in
  let expected := expected_signature webhook_secret body in
  let status x_signature :=
    Main.status_code
      (fst (Main.webhook fromisoformat webhook_secret now empty_world
              x_signature body (loads valid_message))) in
  (status (Some expected) = 401 <-> Some expected <> Some expected)
  /\ (status (Some "invalid-signature") = 401
      <-> Some "invalid-signature" <> Some expected).
Proof.
  intros body expected status. split.
  - apply (C2_signature_gate fromisoformat webhook_secret now empty_world
             (Some expected) body (loads valid_message)).
    intros s E. assert (E' : s = expected) by congruence.
    rewrite E'. apply hexdigest_isascii.
  - apply (C2_signature_gate fromisoformat webhook_secret now empty_world
             (Some "invalid-signature") body (loads valid_message)).
    intros s E. assert (E' : s = "invalid-signature") by congruence.
    rewrite E'. reflexivity.
Defined.

(** C3 fails on the code for a sender written with a superscript digit:
    ["+"] followed by U+00B2 is no plus sign followed by decimal digits,
    yet the payload passes validation, is acknowledged and is stored. *)
Theorem C3_superscript_sender_is_stored :
  e164 superscript_sender = false
  /\ Main.validate_msisdn superscript_sender = Some superscript_sender
  /\ Main.webhook fromisoformat webhook_secret now empty_world
       (Some (calculate_signature webhook_secret superscript_body))
       superscript_body (loads superscript_message)
     = (Main.WebhookResponse "ok",
        Main.mkWorld
          [Storage.mkRow "msg_123" superscript_sender "+919876543211"
             "2025-01-15T10:00:00Z" (Some "Hello, world!")
             "2025-01-15T10:00:01.000000Z"]
          [Main.InsertMessage "msg_123" superscript_sender "+919876543211"
             "2025-01-15T10:00:00Z" (Some "Hello, world!")]
          ["created"]).
Proof. vm_compute. repeat split; reflexivity. Qed.

(** C6 fails on the code for the search term [_]: it occurs in no text
    without an underscore, yet in the pattern of LIKE it stands for any
    character.  The row whose text is the letter a passes the filter, the
    repository returns it, and GET /messages?q=_ answers with it. *)
Theorem C6_underscore_matches_any_character :
  let a := Storage.mkMessage "msg_1" "+919876543210" "+919876543211"
             "2025-01-15T10:00:00Z" (Some "a") in
  "_" <> ""
  /\ ~ occurs_in (Text.lower "_") (Text.lower "a")
  /\ Forall (fun r => Storage.cond_q "_" r = true) underscore_table
  /\ Storage.get_messages_call underscore_table 50 0 None None (Some "_")
     = Storage.Returned ([a], 1)
  /\ fst (Main.get_messages (Main.mkWorld underscore_table [] [])
            Main.Omitted Main.Omitted None None (Some "_"))
     = Main.MessagesResponse [a] 1 50 0.
Proof.
  intros a. split; [discriminate|]. split.
  { intros (pre & post & E). vm_compute in E.
    destruct pre as [|c pre]; simpl in E; [discriminate|].
    destruct pre as [|c' pre]; simpl in E; discriminate. }
  split; [repeat constructor|].
  split; vm_compute; reflexivity.
Qed.

(** The search term [Hello] on the rows of the tests. *)
Lemma hello_on_seed :
  forall m,
    In m (fst (Storage.get_messages seed (-1) 0 None None (Some "Hello")))
    <-> exists r t,
          In r seed /\ m = Storage.to_message r
          /\ Storage.text r = Some t
          /\ occurs_in (Text.lower "Hello") (Text.lower (read_by_like t)).
Proof.
  assert (N : "Hello" <> "") by discriminate.
  assert (L : Forall literal (Text.chars "Hello")).
  { repeat constructor; discriminate. }
  assert (Z0 : nul_free "Hello").
  { unfold nul_free. simpl. intuition discriminate. }
  exact (proj1 (proj2 (q_filter_on_literal_terms "Hello" N L Z0)) seed).
Qed.

End OnSamples.

(* ------------------------------------------------------------------ *)
(** ** The validator *)

Section Validator.

Import Main.

Variable fromisoformat : string -> bool.

Lemma bind_Some_iff {A B : Type} (o : option A) (f : A -> option B) b :
  bind o f = Some b <-> exists a, o = Some a /\ f a = Some b.
Proof.
  destruct o as [a|]; simpl; split.
  - intros H. exists a. auto.
  - intros (a' & [= <-] & H). exact H.
  - discriminate.
  - intros (a & E & _). discriminate.
Qed.

Lemma min_length_one s s' :
  min_length 1 s = Some s' <-> s' = s /\ s <> "".
Proof.
  unfold min_length. destruct s as [|c s]; simpl.
  - split; [discriminate | intros [_ N]; now contradict N].
  - split; [intros [= <-]; split; [reflexivity | discriminate]
           | intros [-> _]; reflexivity].
Qed.

Lemma max_length_iff n s s' :
  max_length n s = Some s' <-> s' = s /\ (String.length s <= n)%nat.
Proof.
  unfold max_length. destruct (Nat.leb_spec (String.length s) n).
  - split; [intros [= <-]; auto | intros [-> _]; reflexivity].
  - split; [discriminate | intros [_ L]; lia].
Qed.

Lemma validate_msisdn_iff v v' :
  validate_msisdn v = Some v' <-> v' = v /\ plus_isdigit v = true.
Proof.
  rewrite validate_msisdn_spec. destruct (plus_isdigit v).
  - split; [intros [= <-]; auto | intros [-> _]; reflexivity].
  - split; [discriminate | intros [_ H]; discriminate].
Qed.

Lemma validate_timestamp_iff v v' :
  validate_timestamp fromisoformat v = Some v'
  <-> v' = v /\ Text.endswith_char "Z" v = true
      /\ fromisoformat (Text.replace_char "Z" "+00:00" v) = true.
Proof.
  unfold validate_timestamp.
  destruct (Text.endswith_char "Z" v); simpl.
  - destruct (fromisoformat (Text.replace_char "Z" "+00:00" v)).
    + split; [intros [= <-]; auto | intros [-> _]; reflexivity].
    + split; [discriminate | intros (_ & _ & H); discriminate].
  - split; [discriminate | intros (_ & H & _); discriminate].
Qed.

Lemma text_field_iff (o txt : option string) :
  match o with
  | None => Some None
  | Some s => bind (max_length 4096 s) (fun s' => Some (Some s'))
  end = Some txt
  <-> txt = o /\ (forall t, o = Some t -> (String.length t <= 4096)%nat).
Proof.
  destruct o as [s|].
  - rewrite bind_Some_iff. split.
    + intros (s' & H & [= <-]). apply max_length_iff in H.
      destruct H as [-> L]. split; [reflexivity|]. now intros t [= <-].
    + intros [-> L]. exists s. split; [|reflexivity].
      apply max_length_iff. auto.
  - split; [intros [= <-]; split; [reflexivity | discriminate]
           | intros [-> _]; reflexivity].
Qed.

Lemma validate_iff d m :
  validate fromisoformat d = Some m
  <-> str_field d "message_id" = Some (message_id m)
      /\ str_field d "from_msisdn" = Some (from_msisdn m)
      /\ str_field d "to_msisdn" = Some (to_msisdn m)
      /\ str_field d "ts" = Some (ts m)
      /\ optional_str_field d "text" = Some (text m)
      /\ well_formed fromisoformat (message_id m) (from_msisdn m)
           (to_msisdn m) (ts m) (text m).
Proof.
  destruct m as [id from to t txt]. unfold validate, well_formed. simpl.
  split.
  - intros H.
    apply bind_Some_iff in H. destruct H as (id' & H1 & H).
    apply bind_Some_iff in H. destruct H as (from' & H2 & H).
    apply bind_Some_iff in H. destruct H as (to' & H3 & H).
    apply bind_Some_iff in H. destruct H as (t' & H4 & H).
    apply bind_Some_iff in H. destruct H as (txt' & H5 & H).
    injection H as -> -> -> -> ->.
    apply bind_Some_iff in H1. destruct H1 as (a1 & F1 & V1).
    apply bind_Some_iff in H2. destruct H2 as (a2 & F2 & V2).
    apply bind_Some_iff in H3. destruct H3 as (a3 & F3 & V3).
    apply bind_Some_iff in H4. destruct H4 as (a4 & F4 & V4).
    apply bind_Some_iff in H5. destruct H5 as (a5 & F5 & V5).
    apply min_length_one in V1. destruct V1 as [-> N1].
    apply validate_msisdn_iff in V2. destruct V2 as [-> N2].
    apply validate_msisdn_iff in V3. destruct V3 as [-> N3].
    apply validate_timestamp_iff in V4. destruct V4 as (-> & N4 & N4').
    apply text_field_iff in V5. destruct V5 as [-> N5].
    repeat (split; [assumption|]). assumption.
  - intros (F1 & F2 & F3 & F4 & F5 & N1 & N2 & N3 & N4 & N4' & N5).
    rewrite F1, F2, F3, F4, F5. simpl bind.
    assert (E1 : min_length 1 id = Some id) by now apply min_length_one.
    assert (E2 : validate_msisdn from = Some from)
      by now apply validate_msisdn_iff.
    assert (E3 : validate_msisdn to = Some to)
      by now apply validate_msisdn_iff.
    assert (E4 : validate_timestamp fromisoformat t = Some t)
      by now apply validate_timestamp_iff.
    rewrite E1, E2, E3, E4. cbv beta iota.
    assert (E5 : match txt with
                 | None => Some None
                 | Some s => bind (max_length 4096 s)
                               (fun s' => Some (Some s'))
                 end = Some txt) by now apply text_field_iff.
    rewrite E5. reflexivity.
Qed.

(** The validator accepts a payload exactly when its four required fields
    are strings and its text is absent, null or a string, all within the
    constraints of the class; the message it builds holds the values of the
    payload as they are. *)
Theorem validate_accepts_exactly_well_formed_payloads :
  forall d m,
    validate fromisoformat d = Some m
    <-> str_field d "message_id" = Some (message_id m)
        /\ str_field d "from_msisdn" = Some (from_msisdn m)
        /\ str_field d "to_msisdn" = Some (to_msisdn m)
        /\ str_field d "ts" = Some (ts m)
        /\ optional_str_field d "text" = Some (text m)
        /\ well_formed fromisoformat (message_id m) (from_msisdn m)
             (to_msisdn m) (ts m) (text m).
Proof.
  intros d m. split.
  - intros H. now apply validate_iff.
  - intros H. now apply validate_iff.
Qed.

(** A sender or recipient made of a plus sign and decimal digits is
    accepted, and whatever the validator accepts comes back unchanged,
    starts with a plus sign and has at least one more character. *)
Theorem validate_msisdn_accepts_e164 :
  forall v,
    (e164 v = true -> validate_msisdn v = Some v)
    /\ (forall v', validate_msisdn v = Some v' ->
          v' = v /\ Text.startswith_char "+" v = true
          /\ (2 <= String.length v)%nat).
Proof.
  intros v. split.
  - intros H. apply validate_msisdn_iff. split; [reflexivity|].
    unfold e164, plus_isdigit, Text.isdigit in *.
    destruct v as [|p [|c r]]; simpl in *; try discriminate.
    apply andb_true_iff in H. destruct H as [Hp H].
    rewrite Hp. simpl.
    apply andb_true_iff in H. destruct H as [Hc Hr].
    apply andb_true_iff. split.
    + unfold Text.isdigit_char. unfold decimal_digit in Hc.
      rewrite Hc. reflexivity.
    + apply forallb_forall. intros x Hx.
      rewrite forallb_forall in Hr. specialize (Hr x Hx).
      unfold Text.isdigit_char. unfold decimal_digit in Hr.
      rewrite Hr. reflexivity.
  - intros v' H. apply validate_msisdn_iff in H. destruct H as [-> H].
    split; [reflexivity|]. unfold plus_isdigit in H.
    apply andb_true_iff in H. destruct H as [H1 H2].
    split; [assumption|].
    destruct v as [|p [|c r]]; simpl in *; try discriminate. lia.
Qed.

End Validator.

(* ------------------------------------------------------------------ *)
(** ** The webhook on every request *)

Section WebhookCases.

Import Main.

Variable fromisoformat : string -> bool.

Lemma isascii_false_not_empty s : Text.isascii s = false -> s <> "".
Proof. intros H ->. discriminate. Qed.

Lemma webhook_non_ascii secret now w s body loaded :
  Text.isascii s = false ->
  webhook fromisoformat secret now w (Some s) body loaded
  = (UnhandledError, w).
Proof.
  intros A. unfold webhook.
  assert (T : Text.truthy (Some s) = true)
    by now apply truthy_Some, isascii_false_not_empty.
  rewrite T, verify_signature_spec, A. reflexivity.
Qed.

Lemma webhook_has_effect secret now w x_signature body loaded :
  webhook_effect fromisoformat now w
    (snd (webhook fromisoformat secret now w x_signature body loaded)).
Proof.
  destruct x_signature as [s|].
  2:{ rewrite (proj1 (webhook_unsigned fromisoformat secret now w body
                        loaded)).
      eapply effect_rejected; [left; reflexivity | reflexivity]. }
  destruct (string_dec s (expected_signature secret body)) as [-> | N].
  - rewrite webhook_signed.
    destruct loaded as [| |j].
    { eapply effect_rejected; [right; reflexivity | reflexivity]. }
    { apply effect_none. reflexivity. }
    destruct j; try (apply effect_none; reflexivity).
    destruct (validate fromisoformat members) as [m|] eqn:V.
    2:{ eapply effect_rejected; [right; reflexivity | reflexivity]. }
    apply validate_iff in V.
    destruct V as (_ & _ & _ & _ & _ & WF).
    rewrite storage_insert_message_unfold. cbn [fst snd].
    destruct (Storage.has_id (db w) (message_id m)) eqn:H.
    + rewrite (insert_message_duplicate _ _ _ _ _ _ _ H). cbn [fst snd].
      eapply effect_duplicate; eauto.
    + rewrite (insert_message_new _ _ _ _ _ _ _ H). cbn [fst snd].
      eapply effect_created; eauto.
  - destruct (Text.isascii s) eqn:A.
    + rewrite (webhook_wrong_signature fromisoformat secret now w s body
                 loaded A N).
      eapply effect_rejected; [left; reflexivity | reflexivity].
    + rewrite webhook_non_ascii by assumption.
      apply effect_none. reflexivity.
Qed.

(** A correctly signed request whose body makes the decoding raise a
    ValueError (it is not UTF-8, or not JSON), or decodes to an object that
    the validator refuses, is answered 422 and counted as
    [validation_error]; the table is untouched and the repository is not
    called.  One whose body makes the decoding raise a RecursionError ends
    in an unhandled error, with nothing counted. *)
Theorem webhook_refuses_what_validation_refuses :
  forall secret now w body loaded,
    let out :=
      webhook fromisoformat secret now w
        (Some (expected_signature secret body)) body loaded in
    (loaded = DecodeError
     \/ (exists d, loaded = Loaded (JObject d)
                   /\ validate fromisoformat d = None) ->
     out = (HTTPException 422,
            mkWorld (db w) (calls w)
              (webhook_requests w ++ ["validation_error"])%list))
    /\ (loaded = RecursionError ->
        out = (UnhandledError, w) /\ status_code (fst out) = 500).
Proof.
  intros secret now w body loaded out. subst out.
  rewrite webhook_signed. split.
  - intros [-> | (d & -> & V)]; [reflexivity|].
    rewrite V. reflexivity.
  - intros ->. split; reflexivity.
Qed.

(** A correctly signed request whose body decodes to JSON that is not an
    object (an array, a string, a number, true, false, null) ends in an
    unhandled error: it is not answered 422, nothing is counted and the
    world stays as it was. *)
Theorem webhook_unhandled_on_non_object_json :
  forall secret now w body j,
    is_object j = false ->
    webhook fromisoformat secret now w
      (Some (expected_signature secret body)) body (Loaded j)
    = (UnhandledError, w).
Proof.
  intros secret now w body j H. rewrite webhook_signed.
  destruct j; try reflexivity. discriminate.
Qed.

(** A signature header with a character outside ASCII ends in an unhandled
    error, whatever the secret and the body: it is not answered 401, nothing
    is counted and the world stays as it was. *)
Theorem webhook_unhandled_on_non_ascii_signature :
  forall secret now w s body loaded,
    Text.isascii s = false ->
    webhook fromisoformat secret now w (Some s) body loaded
    = (UnhandledError, w)
    /\ status_code UnhandledError = 500.
Proof.
  intros. split; [now apply webhook_non_ascii | reflexivity].
Qed.

End WebhookCases.

(* ------------------------------------------------------------------ *)
(** ** The application over a sequence of requests *)

Section Application.

Import Main.

Variable fromisoformat : string -> bool.
Variable secret : string.

Lemma row_of_valid now m :
  well_formed fromisoformat (message_id m) (from_msisdn m) (to_msisdn m)
    (ts m) (text m) ->
  row_valid fromisoformat (row_of now m).
Proof. intros H. split; [exact H | now exists now]. Qed.

Lemma unique_ids_append (tbl : Storage.table) r :
  Storage.unique_ids tbl ->
  Storage.has_id tbl (Storage.message_id r) = false ->
  Storage.unique_ids (tbl ++ [r])%list.
Proof.
  unfold Storage.unique_ids. intros U H. rewrite map_app. simpl.
  apply NoDup_app; [assumption | repeat constructor; tauto |].
  intros x Hx [<- | []]. apply has_id_spec in Hx. congruence.
Qed.

(** One request: the table stays or gains one valid row with a new
    identifier, counted as [created]; nothing else is counted so. *)
Lemma app_step w req :
  let w' := snd (serve fromisoformat secret w req) in
  exists added labels,
    db w' = (db w ++ added)%list
    /\ webhook_requests w' = (webhook_requests w ++ labels)%list
    /\ List.length added = counted "created" labels
    /\ Forall (row_valid fromisoformat) added
    /\ (Storage.unique_ids (db w) -> Storage.unique_ids (db w')).
Proof.
  destruct req as [now x_signature body loaded | limit offset from since q |];
    cbn [serve].
  - destruct (webhook_has_effect fromisoformat secret now w x_signature body
                loaded) as [E | label L E | m WF H E | m WF H E];
      cbv zeta; rewrite E.
    + exists [], []. rewrite !app_nil_r. auto.
    + exists [], [label]. simpl. rewrite app_nil_r.
      split; [reflexivity|]. split; [reflexivity|]. split.
      * unfold counted. simpl.
        destruct (string_dec label "created") as [-> | _]; [|reflexivity].
        destruct L; discriminate.
      * auto.
    + exists [], ["duplicate"]. simpl. rewrite app_nil_r. auto.
    + exists [row_of now m], ["created"]. simpl.
      split; [reflexivity|]. split; [reflexivity|].
      split; [reflexivity|]. split.
      * constructor; [now apply row_of_valid | constructor].
      * intros U. now apply unique_ids_append.
  - exists [], []. rewrite !app_nil_r. unfold get_messages.
    destruct (Query 50 1 (Some 100) limit) as [l|];
      [destruct (Query 0 0 None offset) as [o|]|]; simpl; auto.
    destruct (Storage.get_messages_call (db w) l o from since q)
      as [[page total] | e]; simpl; auto.
  - exists [], []. rewrite !app_nil_r. simpl. auto.
Qed.

Lemma app_all_steps reqs : forall w,
  let w' := serve_all fromisoformat secret w reqs in
  exists added labels,
    db w' = (db w ++ added)%list
    /\ webhook_requests w' = (webhook_requests w ++ labels)%list
    /\ List.length added = counted "created" labels
    /\ Forall (row_valid fromisoformat) added
    /\ (Storage.unique_ids (db w) -> Storage.unique_ids (db w')).
Proof.
  induction reqs as [|req reqs IH]; intros w; cbn [serve_all fold_left].
  - exists [], []. rewrite !app_nil_r. cbv zeta. auto.
  - destruct (app_step w req) as (a1 & l1 & D1 & L1 & C1 & V1 & U1).
    specialize (IH (snd (serve fromisoformat secret w req))).
    cbv zeta in IH. unfold serve_all in IH.
    destruct IH as (a2 & l2 & D2 & L2 & C2 & V2 & U2).
    exists (a1 ++ a2)%list, (l1 ++ l2)%list. cbv zeta.
    split; [now rewrite D2, D1, app_assoc|].
    split; [now rewrite L2, L1, app_assoc|].
    split.
    { unfold counted in *. rewrite length_app, count_occ_app. lia. }
    split; [now apply Forall_app|].
    intros U. apply U2, U1, U.
Qed.

(** Whatever requests are served, the identifiers of the stored messages
    stay distinct. *)
Theorem app_keeps_message_ids_unique :
  forall w reqs,
    Storage.unique_ids (db w) ->
    Storage.unique_ids (db (serve_all fromisoformat secret w reqs)).
Proof.
  intros w reqs U.
  destruct (app_all_steps reqs w) as (added & labels & _ & _ & _ & _ & H).
  auto.
Qed.

(** Whatever requests are served, every stored row meets the constraints of
    the validator: the table is filled through validation only. *)
Theorem app_stores_only_validated_rows :
  forall w reqs,
    Forall (row_valid fromisoformat) (db w) ->
    Forall (row_valid fromisoformat)
      (db (serve_all fromisoformat secret w reqs)).
Proof.
  intros w reqs V.
  destruct (app_all_steps reqs w) as (added & labels & D & _ & _ & VA & _).
  rewrite D. apply Forall_app. auto.
Qed.

(** Whatever requests are served, the table only grows at its end: no row is
    removed or changed, and the rows added are as many as the requests
    counted as [created]. *)
Theorem app_only_appends_created_rows :
  forall w reqs,
    exists added labels,
      db (serve_all fromisoformat secret w reqs) = (db w ++ added)%list
      /\ webhook_requests (serve_all fromisoformat secret w reqs)
         = (webhook_requests w ++ labels)%list
      /\ List.length added = counted "created" labels.
Proof.
  intros w reqs.
  destruct (app_all_steps reqs w) as (added & labels & D & L & C & _).
  exists added, labels. auto.
Qed.

End Application.

(* ------------------------------------------------------------------ *)
(** ** Pages of the listing *)

Section Pages.

Import Storage.

Lemma firstn_then_firstn {A : Type} a b (l : list A) :
  (firstn a l ++ firstn b (skipn a l))%list = firstn (a + b) l.
Proof.
  revert l. induction a as [|a IH]; intros l; [reflexivity|].
  destruct l as [|x l]; simpl.
  - now rewrite firstn_nil.
  - now rewrite IH.
Qed.

Lemma limit_offset_length {A : Type} limit offset (l : list A) :
  0 <= limit -> 0 <= offset ->
  Z.of_nat (List.length (Sql.limit_offset limit offset l))
  = Z.max 0 (Z.min limit (Z.of_nat (List.length l) - offset)).
Proof.
  intros Hl Ho. unfold Sql.limit_offset.
  destruct (Z.ltb_spec limit 0); [lia|].
  rewrite length_firstn, length_skipn. lia.
Qed.

Lemma limit_offset_consecutive {A : Type} l1 l2 offset (l : list A) :
  0 <= l1 -> 0 <= l2 -> 0 <= offset ->
  (Sql.limit_offset l1 offset l ++ Sql.limit_offset l2 (offset + l1) l)%list
  = Sql.limit_offset (l1 + l2) offset l.
Proof.
  intros H1 H2 Ho. unfold Sql.limit_offset.
  destruct (Z.ltb_spec l1 0); [lia|].
  destruct (Z.ltb_spec l2 0); [lia|].
  destruct (Z.ltb_spec (l1 + l2) 0); [lia|].
  rewrite !Z2Nat.inj_add by lia.
  rewrite (Nat.add_comm (Z.to_nat offset)), <- skipn_skipn.
  apply firstn_then_firstn.
Qed.

Lemma NoDup_firstn {A : Type} n (l : list A) : NoDup l -> NoDup (firstn n l).
Proof.
  intros H. rewrite <- (firstn_skipn n l) in H.
  now apply NoDup_app_remove_r in H.
Qed.

Lemma NoDup_skipn {A : Type} n (l : list A) : NoDup l -> NoDup (skipn n l).
Proof.
  intros H. rewrite <- (firstn_skipn n l) in H.
  now apply NoDup_app_remove_l in H.
Qed.

Lemma NoDup_limit_offset {A : Type} limit offset (l : list A) :
  NoDup l -> NoDup (Sql.limit_offset limit offset l).
Proof.
  intros H. unfold Sql.limit_offset. destruct (limit <? 0).
  - now apply NoDup_skipn.
  - now apply NoDup_firstn, NoDup_skipn.
Qed.

Lemma NoDup_map_filter {A B : Type} (f : A -> B) (p : A -> bool) l :
  NoDup (map f l) -> NoDup (map f (filter p l)).
Proof.
  induction l as [|x l IH]; simpl; intros H; [constructor|].
  inversion H as [|? ? Hx Hl]; subst.
  destruct (p x); simpl; [|auto].
  constructor; [|auto]. intros Hin. apply Hx.
  apply in_map_iff in Hin. destruct Hin as (y & E & Hy).
  apply filter_In in Hy. apply in_map_iff. exists y. tauto.
Qed.

Lemma Permutation_filter {A : Type} (p : A -> bool) l l' :
  Permutation l l' -> Permutation (filter p l) (filter p l').
Proof.
  induction 1 as [|x l l' H IH|x y l|l l' l'' H1 IH1 H2 IH2]; simpl.
  - constructor.
  - destruct (p x); [now constructor | assumption].
  - destruct (p x), (p y); try reflexivity. apply perm_swap.
  - now transitivity (filter p l').
Qed.

(** Two sorted arrangements of the same elements are the same list, when
    the order is antisymmetric on them. *)
Lemma sorted_arrangement_unique {A : Type} (R : A -> A -> Prop) l :
  forall l',
    StronglySorted R l -> StronglySorted R l' -> Permutation l l' ->
    (forall a b, In a l -> In b l -> R a b -> R b a -> a = b) ->
    l = l'.
Proof.
  induction l as [|a l IH]; intros l' S S' P Anti.
  - apply Permutation_nil in P. now subst.
  - destruct l' as [|b l'].
    { symmetry in P. apply Permutation_nil in P. discriminate. }
    inversion S as [|? ? Sl Fa]; subst.
    inversion S' as [|? ? Sl' Fb]; subst.
    rewrite Forall_forall in Fa, Fb.
    assert (E : a = b).
    { assert (Ha : In a (b :: l'))
        by (eapply Permutation_in; [exact P | now left]).
      assert (Hb : In b (a :: l))
        by (eapply Permutation_in; [symmetry; exact P | now left]).
      destruct Ha as [-> | Ha]; [reflexivity|].
      destruct Hb as [-> | Hb]; [reflexivity|].
      apply Anti; [now left | now right | auto | auto]. }
    subst b. f_equal. apply IH; try assumption.
    + now apply Permutation_cons_inv in P.
    + intros x y Hx Hy. apply Anti; now right.
Qed.

Lemma same_id_same_row (tbl : table) a b :
  unique_ids tbl -> In a tbl -> In b tbl ->
  message_id a = message_id b -> a = b.
Proof.
  unfold unique_ids. induction tbl as [|r tbl IH]; simpl; intros U Ha Hb E;
    [contradiction|].
  inversion U as [|? ? Hr Ht]; subst.
  destruct Ha as [-> | Ha], Hb as [-> | Hb]; try reflexivity.
  - exfalso. apply Hr. rewrite E. now apply in_map.
  - exfalso. apply Hr. rewrite <- E. now apply in_map.
  - auto.
Qed.

Lemma message_le_antisym a b :
  message_le a b -> message_le b a ->
  m_ts a = m_ts b /\ m_message_id a = m_message_id b.
Proof.
  unfold message_le.
  intros [[L N] | [E L]] [[L' N'] | [E' L']].
  - exfalso. apply N. now apply lex_le_antisym.
  - exfalso. apply N. now symmetry.
  - exfalso. apply N'. now symmetry.
  - split; [assumption | now apply lex_le_antisym].
Qed.

Lemma ordered_rows_sorted (l : list Row) :
  StronglySorted (fun a b => message_le (to_message a) (to_message b))
    (Sql.order_by row_leb l).
Proof.
  apply (order_by_sorted row_leb).
  - intros a b c. apply message_le_trans.
  - apply row_leb_true.
  - apply row_leb_false.
Qed.

Lemma page_length db limit offset from since q :
  0 <= limit -> 0 <= offset ->
  Z.of_nat (List.length (fst (get_messages db limit offset from since q)))
  = Z.max 0
      (Z.min limit (snd (get_messages db limit offset from since q) - offset)).
Proof.
  intros Hl Ho. rewrite get_messages_unfold. cbn [fst snd].
  rewrite length_map, limit_offset_length by assumption.
  now rewrite order_by_length.
Qed.

Lemma pages_join db l1 l2 offset from since q :
  0 <= l1 -> 0 <= l2 -> 0 <= offset ->
  (fst (get_messages db l1 offset from since q)
   ++ fst (get_messages db l2 (offset + l1) from since q))%list
  = fst (get_messages db (l1 + l2) offset from since q).
Proof.
  intros H1 H2 Ho.
  rewrite !get_messages_unfold. cbn [fst].
  rewrite <- map_app. f_equal. now apply limit_offset_consecutive.
Qed.

(** For a limit and an offset that are not negative, a call of the listing
    that returns gives a page of [min limit (total - offset)] messages, of
    none when the offset reaches the total; so the page never holds more
    than [limit] messages.  The call returns when [limit] and [offset] are
    below 2^63 and the search pattern is within the limit of LIKE. *)
Theorem page_length_is_limit_or_what_is_left :
  forall db limit offset from since q,
    0 <= limit -> 0 <= offset ->
    (forall page total,
        get_messages_call db limit offset from since q
        = Returned (page, total) ->
        Z.of_nat (List.length page)
        = Z.max 0 (Z.min limit (total - offset)))
    /\ (limit < 2 ^ 63 -> offset < 2 ^ 63 -> searchable q ->
        exists page total,
          get_messages_call db limit offset from since q
          = Returned (page, total)).
Proof.
  intros db limit offset from since q Hl Ho. split.
  - intros page total E. apply get_messages_call_returned in E.
    destruct E as [E _].
    pose proof (page_length db limit offset from since q Hl Ho) as P.
    rewrite <- E in P. exact P.
  - intros Bl Bo Hq.
    exists (fst (get_messages db limit offset from since q)),
           (snd (get_messages db limit offset from since q)).
    rewrite <- surjective_pairing.
    apply get_messages_call_returns; [lia | lia | exact Hq].
Qed.

(** Pages follow one another without a gap or an overlap.  When the call for
    [l1] messages at an offset and the call for [l2] messages at the offset
    plus [l1] both return, they return the same total, and the call for
    [l1 + l2] messages at the offset returns the first page followed by the
    second, with that total, unless [l1 + l2] reaches 2^63: then it raises
    OverflowError. *)
Theorem consecutive_pages_join :
  forall db l1 l2 offset from since q p1 t1 p2 t2,
    0 <= l1 -> 0 <= l2 -> 0 <= offset ->
    get_messages_call db l1 offset from since q = Returned (p1, t1) ->
    get_messages_call db l2 (offset + l1) from since q
    = Returned (p2, t2) ->
    t2 = t1
    /\ (l1 + l2 < 2 ^ 63 ->
        get_messages_call db (l1 + l2) offset from since q
        = Returned ((p1 ++ p2)%list, t1))
    /\ (2 ^ 63 <= l1 + l2 ->
        get_messages_call db (l1 + l2) offset from since q
        = Raised OverflowError).
Proof.
  intros db l1 l2 offset from since q p1 t1 p2 t2 H1 H2 Ho E1 E2.
  pose proof (pages_join db l1 l2 offset from since q H1 H2 Ho) as J.
  destruct (get_messages_call_returned _ _ _ _ _ _ _ E1) as (R1 & B1 & B1').
  destruct (get_messages_call_returned _ _ _ _ _ _ _ E2) as (R2 & _ & _).
  rewrite <- R1, <- R2 in J. cbn [fst] in J.
  assert (T1 : t1 = snd (get_messages db (l1 + l2) offset from since q)).
  { change t1 with (snd (p1, t1)). now rewrite R1. }
  assert (T2 : t2 = t1).
  { change t2 with (snd (p2, t2)). change t1 with (snd (p1, t1)).
    now rewrite R1, R2. }
  split; [exact T2|].
  unfold get_messages_call in E1 |- *.
  destruct (match q with Some p => _ | None => false end); [discriminate|].
  apply int64_spec in B1'. rewrite B1'.
  split.
  - intros B. assert (I : Sql.int64 (l1 + l2) = true)
      by (apply int64_spec; lia).
    rewrite I. cbn [andb negb]. f_equal.
    rewrite J, T1. now rewrite <- surjective_pairing.
  - intros B. assert (I : Sql.int64 (l1 + l2) = false).
    { destruct (Sql.int64 (l1 + l2)) eqn:I; [|reflexivity].
      apply int64_spec in I. lia. }
    rewrite I. reflexivity.
Qed.

(** When the identifiers of the table are distinct, no identifier comes
    twice on a page. *)
Theorem page_has_no_message_twice :
  forall db limit offset from since q,
    unique_ids db ->
    NoDup (map m_message_id
             (fst (get_messages db limit offset from since q))).
Proof.
  intros db limit offset from since q U.
  rewrite get_messages_unfold. cbn [fst]. rewrite map_map.
  change (fun x : Row => m_message_id (to_message x)) with message_id.
  rewrite <- limit_offset_map. apply NoDup_limit_offset.
  eapply Permutation_NoDup.
  - apply Permutation_map. symmetry. apply order_by_perm.
  - now apply NoDup_map_filter.
Qed.

(** The listing does not depend on the order in which the rows were
    inserted: two tables with the same rows and distinct identifiers give
    the same page and the same total. *)
Theorem listing_ignores_insertion_order :
  forall db db' limit offset from since q,
    unique_ids db -> Permutation db db' ->
    get_messages db limit offset from since q
    = get_messages db' limit offset from since q.
Proof.
  intros db db' limit offset from since q U P.
  rewrite !get_messages_unfold.
  set (keep := where_clause (conditions from since q)).
  assert (PF : Permutation (filter keep db) (filter keep db'))
    by now apply Permutation_filter.
  f_equal.
  - f_equal. f_equal.
    apply (sorted_arrangement_unique
             (fun a b => message_le (to_message a) (to_message b)));
      try apply ordered_rows_sorted.
    + rewrite (order_by_perm row_leb (filter keep db)).
      rewrite PF. symmetry. apply order_by_perm.
    + intros a b Ha Hb Lab Lba.
      apply order_by_In, filter_In in Ha, Hb.
      destruct (message_le_antisym _ _ Lab Lba) as [_ E].
      apply (same_id_same_row db); tauto.
  - f_equal. now apply Permutation_length.
Qed.

End Pages.

(* ------------------------------------------------------------------ *)
(** ** Filters, inserts and statistics together *)

Section Together.

Import Storage.

Lemma filter_length_mono {A : Type} (f g : A -> bool) l :
  (forall x, In x l -> f x = true -> g x = true) ->
  (List.length (filter f l) <= List.length (filter g l))%nat.
Proof.
  induction l as [|x l IH]; simpl; intros H; [lia|].
  assert (IH' := IH (fun y Hy => H y (or_intror Hy))).
  destruct (f x) eqn:F.
  - rewrite (H x (or_introl eq_refl) F). simpl. lia.
  - destruct (g x); simpl; lia.
Qed.

Lemma total_le db limit offset limit' offset' from since q from' since' q' :
  (forall r, satisfies from since q r -> satisfies from' since' q' r) ->
  snd (get_messages db limit offset from since q)
  <= snd (get_messages db limit' offset' from' since' q').
Proof.
  intros H. rewrite !get_messages_unfold. cbn [snd].
  apply Nat2Z.inj_le, filter_length_mono. intros r _ Hr.
  apply where_clause_satisfies, H, where_clause_satisfies, Hr.
Qed.

Lemma when_supplied_None P : when_supplied None P.
Proof. intros p E. discriminate. Qed.

Lemma lex_le_empty_r s : lex_le s "" -> s = "".
Proof. inversion 1. reflexivity. Qed.

(** Every filter can only take messages away: the total with a filter is at
    most the total without it, and at most the number of rows; and a later
    [since] gives at most the total of an earlier one. *)
Theorem filters_only_narrow_the_listing :
  forall db limit offset from since q,
    let total f s p := snd (get_messages db limit offset f s p) in
    total from since q <= total None since q
    /\ total from since q <= total from None q
    /\ total from since q <= total from since None
    /\ total from since q <= Z.of_nat (List.length db)
    /\ (forall s1 s2, lex_le s1 s2 ->
          total from (Some s2) q <= total from (Some s1) q).
Proof.
  intros db limit offset from since q total. subst total. cbv beta.
  split; [|split; [|split; [|split]]].
  - apply total_le. intros r (_ & H2 & H3).
    split; [apply when_supplied_None | auto].
  - apply total_le. intros r (H1 & _ & H3).
    split; [assumption|]. split; [apply when_supplied_None | assumption].
  - apply total_le. intros r (H1 & H2 & _).
    split; [assumption|]. split; [assumption | apply when_supplied_None].
  - rewrite get_messages_unfold. cbn [snd].
    apply Nat2Z.inj_le, List.filter_length_le.
  - intros s1 s2 L. apply total_le. intros r (H1 & H2 & H3).
    split; [assumption|]. split; [|assumption].
    intros p [= <-] N. cbv beta.
    destruct (string_dec s2 "") as [-> | N2].
    + apply lex_le_empty_r in L. contradiction.
    + eapply lex_le_trans; [exact L|]. now apply (H2 s2).
Qed.

Lemma unfiltered db limit offset :
  snd (get_messages db limit offset None None None)
  = Z.of_nat (List.length db).
Proof.
  rewrite get_messages_unfold. cbn [snd]. f_equal. f_equal.
  induction db as [|r db IH]; simpl; congruence.
Qed.

Lemma stats_total db : total_messages (get_stats db) = Z.of_nat (List.length db).
Proof. destruct db; reflexivity. Qed.


(** ** Statistics *)

Lemma min_text_fold l : forall acc,
  let m := fold_left (fun m y => if String.ltb y m then y else m) l acc in
  In m (acc :: l) /\ lex_le m acc /\ forall y, In y l -> lex_le m y.
Proof.
  induction l as [|x l IH]; intros acc; cbn [fold_left].
  - cbv zeta. split; [now left|]. split; [apply lex_le_refl | contradiction].
  - specialize (IH (if String.ltb x acc then x else acc)). cbv zeta in *.
    destruct IH as (I & A & F).
    assert (Hx : lex_le (if String.ltb x acc then x else acc) x
                 /\ lex_le (if String.ltb x acc then x else acc) acc).
    { destruct (String.ltb x acc) eqn:E.
      - apply ltb_lex_lt in E. split; [apply lex_le_refl | apply E].
      - split; [|apply lex_le_refl].
        destruct (lex_le_total acc x) as [T | T]; [exact T|].
        destruct (string_dec x acc) as [-> | N]; [apply lex_le_refl|].
        assert (lex_lt x acc) as Hlt by (split; assumption).
        apply ltb_lex_lt in Hlt. congruence. }
    split; [|split].
    + destruct I as [I | I]; [|right; now right].
      rewrite <- I. destruct (String.ltb x acc); [right; now left | now left].
    + eapply lex_le_trans; [exact A | apply Hx].
    + intros y [<- | Hy]; [|auto].
      eapply lex_le_trans; [exact A | apply Hx].
Qed.

Lemma max_text_fold l : forall acc,
  let m := fold_left (fun m y => if String.ltb m y then y else m) l acc in
  In m (acc :: l) /\ lex_le acc m /\ forall y, In y l -> lex_le y m.
Proof.
  induction l as [|x l IH]; intros acc; cbn [fold_left].
  - cbv zeta. split; [now left|]. split; [apply lex_le_refl | contradiction].
  - specialize (IH (if String.ltb acc x then x else acc)). cbv zeta in *.
    destruct IH as (I & A & F).
    assert (Hx : lex_le x (if String.ltb acc x then x else acc)
                 /\ lex_le acc (if String.ltb acc x then x else acc)).
    { destruct (String.ltb acc x) eqn:E.
      - apply ltb_lex_lt in E. split; [apply lex_le_refl | apply E].
      - split; [|apply lex_le_refl].
        destruct (lex_le_total x acc) as [T | T]; [exact T|].
        destruct (string_dec acc x) as [-> | N]; [apply lex_le_refl|].
        assert (lex_lt acc x) as Hlt by (split; assumption).
        apply ltb_lex_lt in Hlt. congruence. }
    split; [|split].
    + destruct I as [I | I]; [|right; now right].
      rewrite <- I. destruct (String.ltb acc x); [right; now left | now left].
    + eapply lex_le_trans; [apply Hx | exact A].
    + intros y [<- | Hy]; [|auto].
      eapply lex_le_trans; [apply Hx | exact A].
Qed.

(** On a table with rows, [first_message_ts] and [last_message_ts] are the
    [ts] of stored rows, the first at or before the [ts] of every row and the
    last at or after it, in lexicographic order. *)
Theorem stats_first_and_last_ts_bound_every_row :
  forall r db',
    let db := r :: db' in
    exists lo hi,
      first_message_ts (get_stats db) = Some lo
      /\ last_message_ts (get_stats db) = Some hi
      /\ In lo (map ts db) /\ In hi (map ts db)
      /\ forall x, In x db -> lex_le lo (ts x) /\ lex_le (ts x) hi.
Proof.
  intros r db' db.
  assert (Hne : db <> []) by discriminate.
  rewrite (get_stats_nonempty db Hne). cbn [first_message_ts last_message_ts].
  subst db. cbn [map Sql.min_text Sql.max_text].
  destruct (min_text_fold (map ts db') (ts r)) as (I1 & A1 & F1).
  destruct (max_text_fold (map ts db') (ts r)) as (I2 & A2 & F2).
  cbv zeta in *.
  eexists. eexists. split; [reflexivity|]. split; [reflexivity|].
  split; [exact I1|]. split; [exact I2|].
  intros x [<- | Hx]; [auto|].
  split; [apply F1 | apply F2]; now apply in_map.
Qed.

Lemma count_from_cons r db s :
  count_from (r :: db) s
  = (if (from_msisdn r =? s)%string then 1 else 0) + count_from db s.
Proof.
  unfold count_from, cond_from. simpl.
  destruct (from_msisdn r =? s)%string; simpl List.length; lia.
Qed.

Lemma sum_indicator x (l : list string) :
  NoDup l -> In x l ->
  fold_right Z.add 0 (map (fun s => if (x =? s)%string then 1 else 0) l) = 1.
Proof.
  induction 1 as [|y l Hy Hl IH]; simpl; intros Hin; [contradiction|].
  destruct (String.eqb_spec x y) as [-> | N].
  - assert (Z : fold_right Z.add 0
                  (map (fun s => if (y =? s)%string then 1 else 0) l) = 0).
    { clear IH Hl Hin. induction l as [|z l IH]; simpl; [reflexivity|].
      destruct (String.eqb_spec y z) as [-> | _].
      - exfalso. apply Hy. now left.
      - rewrite IH; [reflexivity|]. intro H. apply Hy. now right. }
    rewrite Z. reflexivity.
  - destruct Hin as [-> | Hin]; [contradiction|]. now rewrite IH.
Qed.

Lemma sum_map_add {A : Type} (f g : A -> Z) l :
  fold_right Z.add 0 (map (fun a => f a + g a) l)
  = fold_right Z.add 0 (map f l) + fold_right Z.add 0 (map g l).
Proof. induction l as [|a l IH]; simpl; lia. Qed.

(** The counts of the senders add up to the number of rows. *)
Lemma counts_add_up db : forall l,
  NoDup l -> (forall r, In r db -> In (from_msisdn r) l) ->
  fold_right Z.add 0 (map (count_from db) l) = Z.of_nat (List.length db).
Proof.
  induction db as [|r db IH]; intros l N H.
  - clear. induction l as [|s l IH]; simpl; [reflexivity|].
    rewrite IH. reflexivity.
  - rewrite (map_ext _ (fun s => (if (from_msisdn r =? s)%string then 1 else 0)
                                 + count_from db s))
      by (intro; apply count_from_cons).
    rewrite sum_map_add, sum_indicator, IH; try assumption.
    + simpl List.length. lia.
    + intros x Hx. apply H. now right.
    + apply H. now left.
Qed.

Lemma sum_perm l l' :
  Permutation l l' -> fold_right Z.add 0 l = fold_right Z.add 0 l'.
Proof. induction 1; simpl; lia. Qed.

Lemma sum_firstn_le n l :
  Forall (fun c => 0 <= c) l ->
  fold_right Z.add 0 (firstn n l) <= fold_right Z.add 0 l.
Proof.
  intros H. revert n. induction H as [|c l Hc Hl IH]; intros [|n]; simpl;
    try lia.
  - assert (0 <= fold_right Z.add 0 l).
    { clear IH. induction Hl; simpl; lia. }
    lia.
  - specialize (IH n). lia.
Qed.

Lemma ranked_total db :
  total_count (Sql.order_by count_desc (groups db))
  = Z.of_nat (List.length db).
Proof.
  unfold total_count.
  rewrite (sum_perm _ (map snd (groups db)))
    by (apply Permutation_map, order_by_perm).
  unfold groups. rewrite map_map. cbn [snd].
  rewrite (sum_perm _ (map (count_from db) (senders db)))
    by (apply Permutation_map, order_by_perm).
  apply counts_add_up; [apply senders_NoDup|].
  intros r Hr. apply senders_spec. exists r. split; [assumption | reflexivity].
Qed.

(** The counts of [messages_per_sender] never add up to more than
    [total_messages]; they add up to it when there are at most ten senders;
    and each of them is at least 1. *)
Theorem stats_counts_add_up_to_total :
  forall db,
    let st := get_stats db in
    total_count (messages_per_sender st) <= total_messages st
    /\ ((senders_count st <= 10) ->
        total_count (messages_per_sender st) = total_messages st)
    /\ (forall s c, In (s, c) (messages_per_sender st) -> 1 <= c).
Proof.
  intros db st. subst st.
  destruct db as [|r db'].
  { unfold total_count. simpl.
    split; [lia|]. split; [reflexivity | intros s c []]. }
  set (db := r :: db').
  assert (Hne : db <> []) by discriminate.
  rewrite (get_stats_nonempty db Hne).
  cbn [messages_per_sender total_messages senders_count].
  rewrite top_senders_unfold. split; [|split].
  - rewrite <- (ranked_total db). unfold total_count.
    rewrite <- firstn_map. apply sum_firstn_le.
    apply Forall_forall. intros c Hc. apply in_map_iff in Hc.
    destruct Hc as ([s c'] & <- & Hin). apply order_by_In, groups_In in Hin.
    destruct Hin as [_ ->]. unfold count_from. simpl. lia.
  - intros H. rewrite firstn_all2; [apply ranked_total|].
    rewrite order_by_length. unfold groups.
    rewrite length_map, order_by_length. lia.
  - intros s c Hin. apply In_firstn, order_by_In, groups_In in Hin.
    destruct Hin as [Hs ->]. apply senders_spec in Hs.
    destruct Hs as (x & Hx & E). unfold count_from.
    assert (In x (filter (cond_from s) db)).
    { apply filter_In. split; [assumption|]. now apply String.eqb_eq. }
    destruct (filter (cond_from s) db); [contradiction | simpl; lia].
Qed.

(** The statistics agree with the listing: [total_messages] is the total of
    the unfiltered listing, the count of a listed sender is the total of the
    listing filtered by that sender, and there are no more senders than
    messages. *)
Theorem stats_agree_with_listing :
  forall db limit offset,
    let st := get_stats db in
    total_messages st = snd (get_messages db limit offset None None None)
    /\ (forall s c, In (s, c) (messages_per_sender st) -> s <> "" ->
          c = snd (get_messages db limit offset (Some s) None None))
    /\ senders_count st <= total_messages st.
Proof.
  intros db limit offset st. subst st.
  split; [now rewrite stats_total, unfiltered|].
  destruct db as [|r db']; [simpl; split; [intros s c [] | lia]|].
  set (db := r :: db').
  assert (Hne : db <> []) by discriminate.
  rewrite (get_stats_nonempty db Hne).
  cbn [messages_per_sender total_messages senders_count]. split.
  - intros s c Hin N. apply In_firstn, order_by_In, groups_In in Hin.
    destruct Hin as [_ ->]. rewrite get_messages_unfold. cbn [snd].
    unfold count_from. f_equal. f_equal. apply filter_ext. intro x.
    unfold conditions. apply truthy_Some in N. rewrite N.
    simpl. now rewrite andb_true_r.
  - apply Nat2Z.inj_le. unfold senders.
    rewrite <- (length_map from_msisdn db). apply NoDup_incl_length.
    + apply NoDup_nodup.
    + intros x Hx. now apply nodup_In in Hx.
Qed.

End Together.

(* ------------------------------------------------------------------ *)
(** ** Settings, start and readiness *)

Section Settings.

Import Config.

Variable level_known : string -> bool.
Variable init_db : string -> bool.

(** The application fails to start exactly when it runs outside test mode
    without a secret, or the log level is a name the logging module does
    not know, or the database cannot be created.  Once started outside test
    mode it is ready exactly when the database is reachable; in every case
    it is ready exactly when the database is reachable and the secret is
    set and not empty. *)
Theorem ready_when_database_reachable_and_secret_set :
  forall env reachable,
    (startup level_known init_db env = None
     <-> (Text.truthy (env "TESTING") = false
          /\ Text.truthy (env "WEBHOOK_SECRET") = false)
         \/ level_known (getenv env "LOG_LEVEL" "INFO") = false
         \/ init_db (getenv env "DATABASE_URL" "sqlite:///data/app.db")
            = false)
    /\ (forall s, startup level_known init_db env = Some s ->
          s = settings env
          /\ (health_ready reachable s = Ready
              <-> reachable = true
                  /\ Text.truthy (env "WEBHOOK_SECRET") = true)
          /\ (Text.truthy (env "TESTING") = false ->
              (health_ready reachable s = Ready <-> reachable = true))).
Proof.
  intros env reachable.
  unfold startup, setup_logging, validate_webhook_secret.
  cbn [settings webhook_secret log_level database_url].
  destruct (Text.truthy (env "TESTING")) eqn:T;
    destruct (Text.truthy (env "WEBHOOK_SECRET")) eqn:S;
    destruct (level_known (getenv env "LOG_LEVEL" "INFO")) eqn:L;
    destruct (init_db (getenv env "DATABASE_URL" "sqlite:///data/app.db"))
      eqn:D;
    cbn [negb].
  all: split;
    [split; [discriminate || auto
            | intros [[? ?] | [? | ?]]; congruence]|].
  all: intros s E; try discriminate; injection E as <-.
  all: split; [reflexivity|].
  all: unfold health_ready; cbn [settings webhook_secret]; rewrite S.
  all: destruct reachable; cbn [negb].
  all: split; [split; [discriminate || auto | intros [? ?];
                                               congruence || reflexivity]|].
  all: intros ?; try discriminate.
  all: split; [discriminate || auto | congruence || reflexivity].
Qed.

End Settings.

(* ------------------------------------------------------------------ *)
(** ** The webhook under the settings *)

Section UnderSettings.

Import Main.

Variable fromisoformat : string -> bool.




End UnderSettings.

(* ------------------------------------------------------------------ *)
(** ** The database path *)

Section DatabasePath.

Import Models.

Lemma prefix_app a s : String.prefix a s = true -> exists r, s = a ++ r.
Proof.
  revert s. induction a as [|c a IH]; intros s H.
  - exists s. reflexivity.
  - destruct s as [|d s]; simpl in H; [discriminate|].
    destruct (Ascii.ascii_dec c d) as [-> | N]; [|discriminate].
    destruct (IH s H) as [r ->]. exists r. reflexivity.
Qed.

Lemma replace_nothing old new s :
  ~ occurs_in old s -> replace_from old new 0 s = s.
Proof.
  induction s as [|c s IH]; intros N; [reflexivity|].
  cbn [replace_from].
  destruct (String.prefix old (String c s)) eqn:P.
  - exfalso. apply N. destruct (prefix_app _ _ P) as [r E].
    exists "", r. exact E.
  - f_equal. apply IH. intros (pre & post & E). apply N.
    exists (String c pre), post. simpl. now rewrite E.
Qed.

Lemma replace_skip old new x : forall s,
  replace_from old new (String.length x) (x ++ s) = replace_from old new 0 s.
Proof.
  induction x as [|c x IH]; intros s; [reflexivity|].
  simpl. apply IH.
Qed.

Lemma replace_marker_front s :
  replace "sqlite:///" "" ("sqlite:///" ++ s) = replace "sqlite:///" "" s.
Proof.
  unfold replace.
  change ("sqlite:///" ++ s) with (String "s" ("qlite:///" ++ s)).
  cbn [replace_from].
  assert (P : String.prefix "sqlite:///" (String "s" ("qlite:///" ++ s))
              = true) by (destruct s; reflexivity).
  rewrite P.
  change (String.length "sqlite:///" - 1)%nat
    with (String.length "qlite:///").
  now rewrite replace_skip.
Qed.

(** The path of the database is the URL without the marker [sqlite:///]: a
    marker at the front is dropped, also when another follows it; a URL that
    holds no marker is taken as the path unchanged, and a marker followed by
    a path that holds none gives that path. *)
Theorem get_db_path_strips_the_marker :
  forall p,
    get_db_path ("sqlite:///" ++ p) = get_db_path p
    /\ (~ occurs_in "sqlite:///" p ->
        get_db_path p = p /\ get_db_path ("sqlite:///" ++ p) = p).
Proof.
  intros p. unfold get_db_path. split; [apply replace_marker_front|].
  intros N.
  assert (E : replace "sqlite:///" "" p = p)
    by (unfold replace; now apply replace_nothing).
  split; [exact E | now rewrite replace_marker_front].
Qed.

End DatabasePath.

(* ------------------------------------------------------------------ *)
(** ** The case of the search term *)

Section SearchCase.

Import Storage.

Lemma lower_app a b : Text.lower (a ++ b) = Text.lower a ++ Text.lower b.
Proof.
  unfold Text.lower. now rewrite chars_app, map_app, of_chars_app.
Qed.

Lemma upper_char_code c :
  Text.code (Text.upper_char c)
  = if (97 <=? Text.code c) && (Text.code c <=? 122)
    then Text.code c - 32 else Text.code c.
Proof.
  unfold Text.upper_char.
  destruct ((97 <=? Text.code c) && (Text.code c <=? 122)) eqn:E;
    [|reflexivity].
  apply andb_true_iff in E. destruct E as [E1 E2].
  apply Z.leb_le in E1, E2. apply chr_code. lia.
Qed.

Lemma lower_upper_char c :
  Text.lower_char (Text.upper_char c) = Text.lower_char c.
Proof.
  apply code_inj. rewrite !lower_char_code, upper_char_code.
  destruct (Z.leb_spec 97 (Text.code c)), (Z.leb_spec (Text.code c) 122),
    (Z.leb_spec 65 (Text.code c)), (Z.leb_spec (Text.code c) 90);
    cbn [andb]; try lia;
    repeat match goal with
           | |- context [?a <=? ?b] => destruct (Z.leb_spec a b)
           end; cbn [andb]; lia.
Qed.

Lemma lower_upper s : Text.lower (Text.upper s) = Text.lower s.
Proof.
  unfold Text.lower, Text.upper. rewrite chars_of_chars, map_map.
  f_equal. apply map_ext. apply lower_upper_char.
Qed.

Lemma lower_lower s : Text.lower (Text.lower s) = Text.lower s.
Proof.
  unfold Text.lower. rewrite chars_of_chars, map_map.
  f_equal. apply map_ext. apply lower_char_idem.
Qed.

Lemma upper_empty q : Text.upper q = "" <-> q = "".
Proof.
  split; [|intros ->; reflexivity].
  destruct q; [reflexivity | discriminate].
Qed.

Lemma cond_q_by_lower q q' r r' :
  Text.lower q = Text.lower q' ->
  option_map Text.lower (text r) = option_map Text.lower (text r') ->
  cond_q q r = cond_q q' r'.
Proof.
  intros Eq Et. unfold cond_q.
  rewrite !lower_app, Eq.
  destruct (text r) as [t|], (text r') as [t'|]; simpl in Et;
    try discriminate; [|reflexivity].
  injection Et as ->. reflexivity.
Qed.

(** The search does not see the case of ASCII letters: the search term in
    upper case gives the same page and total as the term itself, and a row
    passes the filter exactly when a row with the same text in upper case
    does. *)
Theorem search_ignores_ascii_case :
  forall q,
    (forall db limit offset from since,
        get_messages db limit offset from since (Some (Text.upper q))
        = get_messages db limit offset from since (Some q))
    /\ (forall r r',
          text r' = option_map Text.upper (text r) ->
          cond_q q r' = cond_q q r).
Proof.
  intros q. split.
  - intros db limit offset from since. rewrite !get_messages_unfold.
    assert (E : filter (where_clause
                          (conditions from since (Some (Text.upper q)))) db
                = filter (where_clause (conditions from since (Some q))) db).
    { apply filter_ext. intro r. unfold conditions.
      rewrite !where_clause_app. f_equal. f_equal.
      destruct (string_dec q "") as [-> | N]; [reflexivity|].
      assert (N' : Text.upper q <> "") by now rewrite upper_empty.
      apply truthy_Some in N, N'. rewrite N, N'.
      unfold where_clause. simpl. f_equal.
      apply cond_q_by_lower; [apply lower_upper | reflexivity]. }
    now rewrite E.
  - intros r r' E. apply cond_q_by_lower; [reflexivity|].
    rewrite E. destruct (text r) as [t|]; simpl; [|reflexivity].
    now rewrite lower_upper.
Qed.

End SearchCase.

(* ------------------------------------------------------------------ *)
(** ** Answers and counters *)

Section Answers.

Import Main.

Variable fromisoformat : string -> bool.

(** Every request to the webhook either ends in an unhandled error, with
    nothing counted, or is counted exactly once, under the label that goes
    with its answer: [created] or [duplicate] with 200, [invalid_signature]
    with 401, [validation_error] with 422. *)
Theorem webhook_counts_each_answer_once :
  forall secret now w x_signature body loaded,
    let out :=
      webhook fromisoformat secret now w x_signature body loaded in
    (out = (UnhandledError, w))
    \/ exists label,
         webhook_requests (snd out) = (webhook_requests w ++ [label])%list
         /\ ((fst out = WebhookResponse "ok"
              /\ (label = "created" \/ label = "duplicate"))
             \/ (fst out = HTTPException 401
                 /\ label = "invalid_signature")
             \/ (fst out = HTTPException 422
                 /\ label = "validation_error")).
Proof.
  intros secret now w x_signature body loaded out. subst out.
  destruct x_signature as [s|].
  2:{ rewrite (proj1 (webhook_unsigned fromisoformat secret now w body
                        loaded)).
      right. exists "invalid_signature". simpl. auto. }
  destruct (string_dec s (expected_signature secret body)) as [-> | N].
  - rewrite webhook_signed. destruct loaded as [| |j].
    { right. exists "validation_error". simpl. auto 6. }
    { left. reflexivity. }
    destruct j; try (left; reflexivity).
    destruct (validate fromisoformat members) as [m|].
    2:{ right. exists "validation_error". simpl. auto 6. }
    rewrite storage_insert_message_unfold. cbn [fst snd].
    right.
    destruct (fst (Storage.insert_message now (db w) (message_id m)
                     (from_msisdn m) (to_msisdn m) (ts m) (text m))).
    + exists "created". simpl. auto.
    + exists "duplicate". simpl. auto.
  - destruct (Text.isascii s) eqn:A.
    + rewrite (webhook_wrong_signature fromisoformat secret now w s body
                 loaded A N).
      right. exists "invalid_signature". simpl. auto 6.
    + left. now apply webhook_non_ascii.
Qed.

(** A listing that the endpoint answers was asked with a limit from 1 to
    100 and an offset that is not negative; its page holds at most [limit]
    messages, so at most 100, and at most [total]. *)
Theorem endpoint_page_is_bounded :
  forall w limit offset from since q data total l o,
    fst (get_messages w limit offset from since q)
    = MessagesResponse data total l o ->
    1 <= l <= 100 /\ 0 <= o
    /\ Z.of_nat (List.length data) <= l
    /\ Z.of_nat (List.length data) <= total.
Proof.
  intros w limit offset from since q data total l o H.
  unfold get_messages in H.
  destruct (Query 50 1 (Some 100) limit) as [l'|] eqn:Ql;
    [|discriminate].
  destruct (Query 0 0 None offset) as [o'|] eqn:Qo; [|discriminate].
  pose proof (page_length (db w) l' o' from since q) as P.
  assert (T : 0 <= snd (Storage.get_messages (db w) l' o' from since q)).
  { rewrite get_messages_unfold. cbn [snd]. lia. }
  cbv zeta in H.
  destruct (Storage.get_messages_call (db w) l' o' from since q)
    as [[page n] | e] eqn:G; [|discriminate].
  apply get_messages_call_returned in G. destruct G as [G _].
  rewrite <- G in P, T.
  cbn [fst snd] in *. injection H as <- <- <- <-.
  assert (Hl : 1 <= l' <= 100).
  { unfold Query in Ql. destruct limit as [|z|]; try discriminate.
    - injection Ql as Ql. lia.
    - destruct (Z.leb_spec 1 z), (Z.leb_spec z 100); simpl in Ql;
        try discriminate. injection Ql as Ql. lia. }
  assert (Ho : 0 <= o').
  { unfold Query in Qo. destruct offset as [|z|]; try discriminate.
    - injection Qo as Qo. lia.
    - destruct (Z.leb_spec 0 z); simpl in Qo; try discriminate.
      injection Qo as Qo. lia. }
  specialize (P ltac:(lia) Ho). cbv zeta in P. cbn [fst snd] in P.
  split; [exact Hl|]. split; [exact Ho|]. split; lia.
Qed.

End Answers.

(* ------------------------------------------------------------------ *)
(** ** The further properties on the sample data *)

Section OnMoreSamples.

Import Samples MoreSamples.

Lemma seed_ids_unique : Storage.unique_ids seed.
Proof.
  unfold Storage.unique_ids. simpl.
  repeat (constructor; [simpl; intuition discriminate|]). constructor.
Qed.

(** A body that does not decode, correctly signed, is answered 422. *)
Lemma undecodable_body_is_refused :
  Main.webhook fromisoformat webhook_secret now empty_world
    (Some (expected_signature webhook_secret "{")) "{" Main.DecodeError
  = (Main.HTTPException 422, Main.mkWorld [] [] ["validation_error"]).
Proof.
  exact (proj1 (webhook_refuses_what_validation_refuses fromisoformat
                  webhook_secret now empty_world "{" Main.DecodeError)
           (or_introl eq_refl)).
Defined.

(** A body that decodes to an empty array, correctly signed, ends in an
    unhandled error. *)
Lemma array_body_is_unhandled :
  is_object (Main.JArray []) = false
  /\ Main.webhook fromisoformat webhook_secret now empty_world
       (Some (expected_signature webhook_secret "[]")) "[]"
       (Main.Loaded (Main.JArray []))
     = (Main.UnhandledError, empty_world).
Proof.
  split; [reflexivity|].
  exact (webhook_unhandled_on_non_object_json fromisoformat webhook_secret
           now empty_world "[]" (Main.JArray []) eq_refl).
Defined.

(** A signature made of the letter e with an acute accent ends in an
    unhandled error. *)
Lemma accented_signature_is_unhandled :
  Text.isascii (String "233" "") = false
  /\ Main.webhook fromisoformat webhook_secret now empty_world
       (Some (String "233" "")) (dumps valid_message) (loads valid_message)
     = (Main.UnhandledError, empty_world).
Proof.
  split; [reflexivity|].
  exact (proj1 (webhook_unhandled_on_non_ascii_signature fromisoformat
                  webhook_secret now empty_world (String "233" "")
                  (dumps valid_message) (loads valid_message) eq_refl)).
Defined.

(** The identifiers stay distinct over the sample requests. *)
Lemma ids_unique_after_sample_requests :
  Storage.unique_ids (Main.db empty_world)
  /\ Storage.unique_ids
       (Main.db (serve_all fromisoformat webhook_secret empty_world requests)).
Proof.
  assert (U : Storage.unique_ids (Main.db empty_world)) by constructor.
  split; [exact U|].
  exact (app_keeps_message_ids_unique fromisoformat webhook_secret
           empty_world requests U).
Defined.

(** The rows stored over the sample requests are valid. *)
Lemma rows_valid_after_sample_requests :
  Forall (row_valid fromisoformat) (Main.db empty_world)
  /\ Forall (row_valid fromisoformat)
       (Main.db (serve_all fromisoformat webhook_secret empty_world requests)).
Proof.
  assert (V : Forall (row_valid fromisoformat) (Main.db empty_world))
    by constructor.
  split; [exact V|].
  exact (app_stores_only_validated_rows fromisoformat webhook_secret
           empty_world requests V).
Defined.

(** The page of two messages at offset one of the three sample rows. *)
Lemma page_length_on_seed :
  let page := Storage.get_messages seed 2 1 None None None in
  Storage.get_messages_call seed 2 1 None None None
  = Storage.Returned (fst page, snd page)
  /\ Z.of_nat (List.length (fst page)) = Z.max 0 (Z.min 2 (snd page - 1)).
Proof.
  intros page.
  assert (L : 0 <= 2) by lia. assert (O : 0 <= 1) by lia.
  assert (E : Storage.get_messages_call seed 2 1 None None None
              = Storage.Returned (fst page, snd page)) by reflexivity.
  split; [exact E|].
  exact (proj1 (page_length_is_limit_or_what_is_left seed 2 1 None None None
                  L O) (fst page) (snd page) E).
Defined.

(** Two pages of one message make the page of two. *)
Lemma consecutive_pages_on_seed :
  let first := Storage.get_messages seed 1 0 None None None in
  let second := Storage.get_messages seed 1 1 None None None in
  Storage.get_messages_call seed 1 0 None None None
  = Storage.Returned (fst first, 3)
  /\ Storage.get_messages_call seed 1 (0 + 1) None None None
     = Storage.Returned (fst second, 3)
  /\ Storage.get_messages_call seed (1 + 1) 0 None None None
     = Storage.Returned ((fst first ++ fst second)%list, 3).
Proof.
  intros first second.
  assert (L : 0 <= 1) by lia. assert (O : 0 <= 0) by lia.
  assert (B : 1 + 1 < 2 ^ 63) by reflexivity.
  assert (E1 : Storage.get_messages_call seed 1 0 None None None
               = Storage.Returned (fst first, 3)) by reflexivity.
  assert (E2 : Storage.get_messages_call seed 1 (0 + 1) None None None
               = Storage.Returned (fst second, 3)) by reflexivity.
  split; [exact E1|]. split; [exact E2|].
  exact (proj1 (proj2 (consecutive_pages_join seed 1 1 0 None None None
                         (fst first) 3 (fst second) 3 L L O E1 E2)) B).
Defined.

(** No identifier twice on the first page of the sample rows. *)
Lemma no_message_twice_on_seed :
  NoDup (map Storage.m_message_id
           (fst (Storage.get_messages seed 50 0 None None None))).
Proof.
  exact (page_has_no_message_twice seed 50 0 None None None
           seed_ids_unique).
Defined.

(** The sample rows inserted in the reverse order are listed alike. *)
Lemma reversed_seed_is_listed_alike :
  Storage.get_messages seed 50 0 None None (Some "hello")
  = Storage.get_messages (rev seed) 50 0 None None (Some "hello").
Proof.
  exact (listing_ignores_insertion_order seed (rev seed) 50 0 None None
           (Some "hello") seed_ids_unique (Permutation_rev seed)).
Defined.



Lemma default_path_has_no_marker : ~ occurs_in "sqlite:///" "data/app.db".
Proof.
  intros (pre & post & E).
  repeat (destruct pre as [|? pre]; simpl in E;
          [discriminate | injection E as _ E]).
  destruct pre; discriminate.
Qed.

(** The default URL gives the path [data/app.db]. *)
Lemma default_database_path :
  Models.get_db_path (Config.database_url (Config.settings (fun _ => None)))
  = "data/app.db".
Proof.
  exact (proj2 (proj2 (get_db_path_strips_the_marker "data/app.db")
                  default_path_has_no_marker)).
Defined.

(** With the secret set and a database that can be created, the
    application starts under the log level [INFO] and does not under
    [info]. *)
Example lower_case_log_level_stops_the_start :
  startup standard_levels (fun _ => true) (environment "INFO")
  = Some (Config.settings (environment "INFO"))
  /\ startup standard_levels (fun _ => true) (environment "info") = None.
Proof. split; reflexivity. Qed.

(** The search term made of the NUL character alone gives the pattern [%]:
    every row with a text passes the filter, whatever the text. *)
Example nul_search_term_matches_every_text :
  forall r t,
    Storage.text r = Some t ->
    Storage.cond_q (String Ascii.zero "") r = true.
Proof.
  intros r t E. unfold Storage.cond_q. rewrite E.
  unfold Sql.like. rewrite chars_lower.
  change (Sql.c_string
            (map Text.lower_char
               (Text.chars ("%" ++ String Ascii.zero "" ++ "%"))))
    with ["%"%char].
  apply like_any_only.
Qed.

(** A listing asked at the offset 2^63 ends in an unhandled error. *)
Example offset_beyond_64_bits_is_unhandled :
  Main.get_messages (Main.mkWorld seed [] []) Main.Omitted
    (Main.Given (2 ^ 63)) None None None
  = (Main.UnhandledError,
     Main.mkWorld seed [Main.GetMessages 50 (2 ^ 63) None None None] []).
Proof. reflexivity. Qed.

(** The answer of the endpoint to a listing of the sample rows, two by
    page. *)
Lemma endpoint_page_on_seed :
  let w := Main.mkWorld seed [] [] in
  let page := Storage.get_messages seed 2 0 None None None in
  Z.of_nat (List.length (fst page)) <= 2
  /\ Z.of_nat (List.length (fst page)) <= snd page.
Proof.
  intros w page.
  destruct (endpoint_page_is_bounded w (Main.Given 2) Main.Omitted None None
              None (fst page) (snd page) 2 0 eq_refl)
    as (_ & _ & H1 & H2).
  split; [exact H1 | exact H2].
Defined.

End OnMoreSamples.
